(** * jaxxgen: the card-number helpers of [src/utils.ts] and the [slowAES] stub

    A shallow embedding of [generateLuhn], [formatCardNumber] and
    [slowAES.decrypt], followed by the properties of the checksum engine
    that the specification states about them.

    Conventions of the embedding:
    - a JavaScript string is a [string]; each [ascii] is one code unit
      (the Latin-1 range, which holds every character the functions
      distinguish: the digits, the space, the line terminators LF and CR);
    - a JavaScript number is a [number]: an integer-valued double, or NaN.
      The sum of [generateLuhn] is at most nine times the length of its
      input, far inside the range where doubles are exact. *)

From Stdlib Require Import ZArith List Bool Lia.
From Stdlib Require Import Strings.Ascii Strings.String Numbers.DecimalString.
From Stdlib Require Floats.
Import ListNotations.

Local Open Scope string_scope.
Local Open Scope Z_scope.

(** ** JavaScript numbers *)

Module JSNumber.

Inductive number : Type :=
| Num (z : Z)
| NaN.

(** [x + y], [x - y], [x * y]: NaN is absorbing. *)
Definition add (x y : number) : number :=
  match x, y with
  | Num a, Num b => Num (a + b)
  | _, _ => NaN
  end.

Definition sub (x y : number) : number :=
  match x, y with
  | Num a, Num b => Num (a - b)
  | _, _ => NaN
  end.

Definition mul (x y : number) : number :=
  match x, y with
  | Num a, Num b => Num (a * b)
  | _, _ => NaN
  end.

(** [x > y]: every comparison with NaN is false. *)
Definition gt (x y : number) : bool :=
  match x, y with
  | Num a, Num b => b <? a
  | _, _ => false
  end.

(** [Math.floor(x / d)] for a positive literal [d]. *)
Definition floor_div (x : number) (d : positive) : number :=
  match x with
  | Num a => Num (a / Z.pos d)
  | NaN => NaN
  end.

(** [x % d] for a positive literal [d]: the sign follows the dividend. *)
Definition rem (x : number) (d : positive) : number :=
  match x with
  | Num a => Num (Z.rem a (Z.pos d))
  | NaN => NaN
  end.

(** [ToString] of a number, as string concatenation applies it. *)
Definition toString (x : number) : string :=
  match x with
  | Num a => NilZero.string_of_int (Z.to_int a)
  | NaN => "NaN"
  end.

(** [ToInt32], applied by the bitwise operators to each operand. *)
Definition ToInt32 (x : number) : Z :=
  match x with
  | Num a => (a + 2 ^ 31) mod 2 ^ 32 - 2 ^ 31
  | NaN => 0
  end.

(** [x ^ y]. *)
Definition bitxor (x y : number) : number :=
  Num (Z.lxor (ToInt32 x) (ToInt32 y)).

(** [v || 0] where [v] is an array read: [None] is [undefined]; the
    falsy numbers are 0 and NaN. *)
Definition or_zero (v : option number) : number :=
  match v with
  | Some (Num a) => if a =? 0 then Num 0 else Num a
  | Some NaN => Num 0
  | None => Num 0
  end.

End JSNumber.
Import JSNumber.

(** ** Characters *)

Definition code (c : ascii) : Z := Z.of_N (N_of_ascii c).

Definition is_digit (c : ascii) : bool := (48 <=? code c) && (code c <=? 57).

(** [parseInt(s[i])]: [s[i]] is one code unit, or [undefined] out of
    range.  A single decimal digit parses to its value; anything else
    (a sign, a space, a letter, [undefined]) has no digits and gives NaN. *)
Definition parseInt (ch : option ascii) : number :=
  match ch with
  | Some c => if is_digit c then Num (code c - 48) else NaN
  | None => NaN
  end.

(** ** [generateLuhn] (src/utils.ts, lines 2-22) *)

Record LoopState : Type := mkLoop { sum : number; shouldDouble : bool }.

(** One pass through the body of the [for] loop, at index [i]. *)
Definition loop_body (partialNumber : string) (i : nat) (st : LoopState)
  : LoopState :=
  let digit := parseInt (String.get i partialNumber) in
  let digit :=
    if shouldDouble st then
      let digit := mul digit (Num 2) in
      if gt digit (Num 9) then sub digit (Num 9) else digit
    else digit in
  {| sum := add (sum st) digit; shouldDouble := negb (shouldDouble st) |}.

(** [for (let i = n - 1; i >= 0; i--) body]: the indices [n-1], ..., [0]. *)
Fixpoint loop (partialNumber : string) (n : nat) (st : LoopState)
  : LoopState :=
  match n with
  | O => st
  | S i => loop partialNumber i (loop_body partialNumber i st)
  end.

Definition loop_init : LoopState := {| sum := Num 0; shouldDouble := false |}.

(** [((Math.floor(sum / 10) + 1) * 10 - sum) % 10]. *)
Definition checkDigit (sum : number) : number :=
  rem (sub (mul (add (floor_div sum 10) (Num 1)) (Num 10)) sum) 10.

(** The value of [sum] when the loop exits. *)
Definition luhn_sum (partialNumber : string) : number :=
  sum (loop partialNumber (String.length partialNumber) loop_init).

Definition generateLuhn (partialNumber : string) : string :=
  partialNumber ++ toString (checkDigit (luhn_sum partialNumber)).

(** *** The loop as a transition system

    The same loop, one transition per iteration: a configuration is the
    loop variable [i] together with the two locals.  The function reads
    its argument and these locals, and nothing else. *)

Definition Config : Type := (Z * LoopState)%type.

Inductive step (partialNumber : string) : Config -> Config -> Prop :=
| step_iter i st :
    0 <= i ->
    step partialNumber (i, st) (i - 1, loop_body partialNumber (Z.to_nat i) st).

Inductive run (partialNumber : string) : Config -> LoopState -> Prop :=
| run_exit i st :
    i < 0 ->
    run partialNumber (i, st) st
| run_iter c c' st' :
    step partialNumber c c' ->
    run partialNumber c' st' ->
    run partialNumber c st'.

Inductive returns (partialNumber : string) : string -> Prop :=
| returns_intro st :
    run partialNumber (Z.of_nat (String.length partialNumber) - 1, loop_init) st ->
    returns partialNumber (partialNumber ++ toString (checkDigit (sum st))).

(** *** How a call completes

    The body of [generateLuhn] has no [throw], and none of the operations
    it applies to a string (indexing, [parseInt], arithmetic, [+]) throws:
    every call completes normally with the string above. *)

Inductive ErrorKind : Type := InvalidInput.

Inductive Completion (A : Type) : Type :=
| Normal (v : A)
| Throw (e : ErrorKind).
Arguments Normal {A} v.
Arguments Throw {A} e.

Definition call_generateLuhn (partialNumber : string) : Completion string :=
  Normal (generateLuhn partialNumber).

(** ** [formatCardNumber] (src/utils.ts, lines 41-43) *)

(** What [.] matches in a regular expression without the [s] flag: any
    code unit except a line terminator. *)
Definition is_line_terminator (c : ascii) : bool :=
  (code c =? 10) || (code c =? 13).

Definition dot (c : ascii) : bool := negb (is_line_terminator c).

(** [WhiteSpace] and [LineTerminator] code units, which [trim] strips:
    TAB, LF, VT, FF, CR, SP and NBSP. *)
Definition is_whitespace (c : ascii) : bool :=
  ((9 <=? code c) && (code c <=? 13)) || (code c =? 32) || (code c =? 160).

(** [s.replace(/(.{4})/g, '$1 ')]: scanning from the left, four
    consecutive code units that [.] matches are copied and followed by a
    space, and the scan resumes after them; where no match starts, the
    code unit is copied and the scan moves one place on. *)
Fixpoint replace_groups (s : string) : string :=
  match s with
  | EmptyString => EmptyString
  | String c1 s1 =>
      match s1 with
      | String c2 (String c3 (String c4 rest)) =>
          if dot c1 && dot c2 && dot c3 && dot c4
          then String c1 (String c2 (String c3 (String c4
                 (String " " (replace_groups rest)))))
          else String c1 (replace_groups s1)
      | _ => String c1 (replace_groups s1)
      end
  end.

Fixpoint trimStart (s : string) : string :=
  match s with
  | EmptyString => EmptyString
  | String c s' => if is_whitespace c then trimStart s' else s
  end.

Fixpoint trimEnd (s : string) : string :=
  match s with
  | EmptyString => EmptyString
  | String c s' =>
      match trimEnd s' with
      | EmptyString => if is_whitespace c then EmptyString else String c EmptyString
      | t => String c t
      end
  end.

Definition trim (s : string) : string := trimStart (trimEnd s).

Definition formatCardNumber (number : string) : string :=
  trim (replace_groups number).

(** ** [slowAES.decrypt] *)

Module slowAES.

(** [arr.map((x, i) => f(x, i))] on a dense array. *)
Fixpoint map_index {A B : Type} (f : A -> nat -> B) (i : nat) (arr : list A)
  : list B :=
  match arr with
  | [] => []
  | x :: arr' => f x i :: map_index f (S i) arr'
  end.

(** [a[i % a.length]]: for an empty array [i % 0] is NaN and the read
    is [undefined]. *)
Definition read_mod (a : list number) (i : nat) : option number :=
  match a with
  | [] => None
  | _ :: _ => nth_error a (Nat.modulo i (List.length a))
  end.

Definition decrypt (c : list number) (b : number) (a f : list number)
  : list number :=
  map_index
    (fun x i => bitxor (bitxor x (or_zero (read_mod a i)))
                       (or_zero (read_mod f i)))
    0%nat c.

End slowAES.

(** ** The specification's side *)

(** The doubling of step 3: multiply by two, subtract 9 above 9. *)
Definition luhn_double (d : Z) : Z :=
  if 9 <? 2 * d then 2 * d - 9 else 2 * d.

(** The digits of a string, the rightmost first. *)
Definition digits_from_right (s : string) : list Z :=
  rev (map (fun c => code c - 48) (list_ascii_of_string s)).

(** The sum of digits listed from the right, the first of them at
    position [pos], with the digits at the positions [doubled] selects
    doubled. *)
Fixpoint position_sum (doubled : nat -> bool) (pos : nat) (ds : list Z) : Z :=
  match ds with
  | [] => 0
  | d :: ds' =>
      (if doubled pos then luhn_double d else d)
      + position_sum doubled (S pos) ds'
  end.

(** A DigitString: non-empty, decimal digits only. *)
Definition is_DigitString (s : string) : bool :=
  match s with
  | EmptyString => false
  | String _ _ => forallb is_digit (list_ascii_of_string s)
  end.

(** Modelled from the spec: [isValid], the validator of section 4.1, which
    the repository does not implement.  Positions count from the right of
    the whole string; position 1 is never doubled, the even positions are;
    the string is valid when the sum is divisible by 10; an input that is
    not a DigitString fails with [InvalidInput]. *)
Definition isValid (full : string) : Completion bool :=
  if is_DigitString full
  then Normal (position_sum Nat.even 1 (digits_from_right full) mod 10 =? 0)
  else Throw InvalidInput.

(** The sum of step 2's "concretely" clause: positions count from the
    right of the prefix, and the odd ones are doubled. *)
Definition reference_sum (prefix : string) : Z :=
  position_sum Nat.odd 1 (digits_from_right prefix).

(** Step 5: [(10 - (sum mod 10)) mod 10]. *)
Definition reference_checkDigit (sum : Z) : Z := (10 - sum mod 10) mod 10.

(** The first [n] characters of a string, and what follows them. *)
Fixpoint take (n : nat) (s : string) : string :=
  match n, s with
  | S n', String c s' => String c (take n' s')
  | _, _ => EmptyString
  end.

Fixpoint drop (n : nat) (s : string) : string :=
  match n, s with
  | S n', String _ s' => drop n' s'
  | _, _ => s
  end.

(** Consecutive groups of [n] characters, the last one shorter when the
    length is not a multiple of [n]; [count] bounds the number of groups,
    and the length of [s] is always enough. *)
Fixpoint groups_of (n : nat) (count : nat) (s : string) : list string :=
  match count, s with
  | S count', String _ _ => take n s :: groups_of n count' (drop n s)
  | _, _ => []
  end.

Definition groups4 (s : string) : list string :=
  groups_of 4 (String.length s) s.

(** Deleting every space. *)
Fixpoint remove_spaces (s : string) : string :=
  match s with
  | EmptyString => EmptyString
  | String c s' =>
      if (c =? " ")%char then remove_spaces s' else String c (remove_spaces s')
  end.

Definition no_whitespace (s : string) : bool :=
  forallb (fun c => negb (is_whitespace c)) (list_ascii_of_string s).

(** The groups of four, joined by single spaces. *)
Definition joined_groups (s : string) : string :=
  String.concat " " (groups4 s).

Fixpoint last_char (s : string) : option ascii :=
  match s with
  | EmptyString => None
  | String c EmptyString => Some c
  | String _ s' => last_char s'
  end.

(** What the induction carries: trimming the end of the replacement
    gives the joined groups, which start with a character of [s], lose
    their spaces back to [s], and do not end in a space. *)
Definition format_invariant (s : string) : Prop :=
  trimEnd (replace_groups s) = joined_groups s
  /\ match joined_groups s with
     | EmptyString => s = EmptyString
     | String c _ => is_whitespace c = false
     end
  /\ remove_spaces (joined_groups s) = s
  /\ last_char (joined_groups s) <> Some " "%char.

(** The claim's key element: [a[i mod |a|]], or 0 when [a] is empty. *)
Definition key_at (a : list number) (i : nat) : number :=
  match a with
  | [] => Num 0
  | _ :: _ => nth (Nat.modulo i (List.length a)) a (Num 0)
  end.

(** The signed 32-bit range, on which [ToInt32] is the identity. *)
Definition int32 (z : Z) : Prop := - 2 ^ 31 <= z < 2 ^ 31.

(** ** Line 20 of [generateLuhn] in binary64

    [number] computes with exact integers, which is what the doubles of
    JavaScript do as long as every intermediate value is an integer below
    2^53.  Beyond that the products round.  The same expression on the
    primitive binary64 numbers shows where the two part. *)

Module Binary64.

Definition float : Set := PrimFloat.float.

(** An integer as a double: exact for the integers below 2^53. *)
Definition of_Z (z : Z) : float := PrimFloat.of_uint63 (Uint63.of_Z z).

(** [Math.floor(x)]: a finite [x] is [m * 2^e]; with [e] negative its
    integer part is [m] shifted right, one more in magnitude for a
    negative [x] that is not an integer. *)
Definition Math_floor (x : float) : float :=
  match FloatOps.Prim2SF x with
  | SpecFloat.S754_finite s m e =>
      if 0 <=? e then x
      else
        let q := Z.shiftr (Z.pos m) (- e) in
        let exact := Z.shiftl q (- e) =? Z.pos m in
        if s then PrimFloat.opp (of_Z (if exact then q else q + 1))
        else of_Z q
  | _ => x
  end.

(** [x % y]: the remainder of the truncated division, which is exact and
    has the sign of [x]; NaN when [x] is not finite or [y] is zero. *)
Definition rem (x y : float) : float :=
  match FloatOps.Prim2SF x, FloatOps.Prim2SF y with
  | SpecFloat.S754_finite sx mx ex, SpecFloat.S754_finite _ my ey =>
      let e := Z.min ex ey in
      let r := Z.rem (Z.pos mx * 2 ^ (ex - e)) (Z.pos my * 2 ^ (ey - e)) in
      let v := FloatOps.Z.ldexp (of_Z r) e in
      if sx then PrimFloat.opp v else v
  | SpecFloat.S754_finite _ _ _, SpecFloat.S754_infinity _ => x
  | SpecFloat.S754_zero _, SpecFloat.S754_finite _ _ _ => x
  | SpecFloat.S754_zero _, SpecFloat.S754_infinity _ => x
  | _, _ => PrimFloat.nan
  end.

(** [((Math.floor(sum / 10) + 1) * 10 - sum) % 10]. *)
Definition checkDigit (sum : float) : float :=
  rem (PrimFloat.sub
         (PrimFloat.mul
            (PrimFloat.add (Math_floor (PrimFloat.div sum (of_Z 10))) (of_Z 1))
            (of_Z 10))
         sum)
      (of_Z 10).

(** Whether the binary64 expression gives the specification's digit on
    each of the sums [0], ..., [n - 1]. *)
Definition agrees_below (n : nat) : bool :=
  forallb
    (fun k =>
       PrimFloat.eqb (checkDigit (of_Z (Z.of_nat k)))
                     (of_Z ((10 - Z.of_nat k mod 10) mod 10)))
    (seq 0 n).

End Binary64.

(** ** The random helpers (src/utils.ts, lines 24-39) *)

(** The environment the helpers read: the values [Math.random()] returns,
    call after call, the rounded and floored product
    [Math.floor(x * d)] of such a value with an integer literal, and the
    year [new Date().getFullYear()] reports. *)
Record Env : Type := mkEnv {
  double : Type;
  Math_random_at : nat -> double;
  floor_times : double -> positive -> Z;
  getFullYear : Z
}.

(** What [Math.random] promises: a value in [0, 1), whose product with a
    positive integer [d] floors to one of [0], ..., [d - 1]. *)
Definition unit_interval (env : Env) : Prop :=
  forall (k : nat) (d : positive),
    0 <= floor_times env (Math_random_at env k) d < Z.pos d.

(** A computation that calls [Math.random]: from the number of calls made
    so far to a result and the number of calls made after it. *)
Definition Rand (A : Type) : Type := nat -> A * nat.

Definition ret {A : Type} (a : A) : Rand A := fun n => (a, n).

Definition bind {A B : Type} (m : Rand A) (f : A -> Rand B) : Rand B :=
  fun n => let (a, n') := m n in f a n'.

Notation "x <- m ;; k" := (bind m (fun x => k))
  (at level 61, m at next level, right associativity).

Definition Math_random (env : Env) : Rand (double env) :=
  fun n => (Math_random_at env n, S n).

(** [ToLength] of a number: NaN and the negative numbers give 0. *)
Definition ToLength (x : number) : nat :=
  match x with
  | Num z => Z.to_nat z
  | NaN => 0%nat
  end.

(** [Array.from({ length: len }, mapFn)]: [mapFn] is called for the
    indices [k], [k + 1], ... in order. *)
Fixpoint Array_from {A : Type} (len : nat) (mapFn : nat -> Rand A) (k : nat)
  : Rand (list A) :=
  match len with
  | O => ret []
  | S len' =>
      x <- mapFn k ;;
      xs <- Array_from len' mapFn (S k) ;;
      ret (x :: xs)
  end.

(** [arr.join(sep)] on an array of numbers. *)
Definition join (sep : string) (arr : list number) : string :=
  String.concat sep (map toString arr).

(** The lengths [Array.from] accepts: from 2^32 on it throws a
    [RangeError] instead of creating the array, and the embedding below
    describes the function on the lengths before that. *)
Definition array_length (length : number) : Prop :=
  match length with
  | Num z => z < 2 ^ 32
  | NaN => True
  end.

Definition generateRandomDigits (env : Env) (length : number) : Rand string :=
  arr <- Array_from (ToLength length)
           (fun _ => r <- Math_random env ;; ret (Num (floor_times env r 10)))
           0%nat ;;
  ret (join "" arr).

Fixpoint repeat_string (n : nat) (s : string) : string :=
  match n with
  | O => EmptyString
  | S n' => s ++ repeat_string n' s
  end.

(** [s.padStart(targetLength, padString)]. *)
Definition padStart (targetLength : nat) (padString : string) (s : string)
  : string :=
  let len := String.length s in
  if (targetLength <=? len)%nat then s
  else
    match padString with
    | EmptyString => s
    | String _ _ =>
        take (targetLength - len)
             (repeat_string (targetLength - len) padString) ++ s
    end.

Definition generateRandomMonth (env : Env) : Rand string :=
  r <- Math_random env ;;
  ret (padStart 2 "0" (toString (add (Num (floor_times env r 12)) (Num 1)))).

Definition generateRandomYear (env : Env) : Rand string :=
  let currentYear := Num (getFullYear env) in
  r <- Math_random env ;;
  ret (toString (add currentYear (Num (floor_times env r 5)))).

Definition generateRandomCVV (env : Env) : Rand string :=
  generateRandomDigits env (Num 3).

(** ** The card generator of [App] (src/App.tsx) *)

Module App.

(** [value.replace(/\D/g, '')]: every code unit outside '0'-'9' is
    deleted. *)
Fixpoint remove_non_digits (value : string) : string :=
  match value with
  | EmptyString => EmptyString
  | String c value' =>
      if is_digit c then String c (remove_non_digits value')
      else remove_non_digits value'
  end.

(** [s.slice(0, n)]. *)
Definition slice0 (n : nat) (s : string) : string := take n s.

(** The state the generator reads and writes. *)
Record State : Type := mkState {
  bin : string;
  error : option string;
  month : string;
  year : string;
  cvv : string;
  quantity : nat;
  generatedCards : list string
}.

(** The [useState] initial values (lines 41-52). *)
Definition initial : State :=
  {| bin := ""; error := None; month := ""; year := ""; cvv := "";
     quantity := 10; generatedCards := [] |}.

Definition setBin (v : string) (st : State) : State :=
  {| bin := v; error := error st; month := month st; year := year st;
     cvv := cvv st; quantity := quantity st;
     generatedCards := generatedCards st |}.

Definition setError (v : option string) (st : State) : State :=
  {| bin := bin st; error := v; month := month st; year := year st;
     cvv := cvv st; quantity := quantity st;
     generatedCards := generatedCards st |}.

Definition setMonth (v : string) (st : State) : State :=
  {| bin := bin st; error := error st; month := v; year := year st;
     cvv := cvv st; quantity := quantity st;
     generatedCards := generatedCards st |}.

Definition setYear (v : string) (st : State) : State :=
  {| bin := bin st; error := error st; month := month st; year := v;
     cvv := cvv st; quantity := quantity st;
     generatedCards := generatedCards st |}.

Definition setCvv (v : string) (st : State) : State :=
  {| bin := bin st; error := error st; month := month st; year := year st;
     cvv := v; quantity := quantity st;
     generatedCards := generatedCards st |}.

Definition setQuantity (v : nat) (st : State) : State :=
  {| bin := bin st; error := error st; month := month st; year := year st;
     cvv := cvv st; quantity := v;
     generatedCards := generatedCards st |}.

Definition setGeneratedCards (v : list string) (st : State) : State :=
  {| bin := bin st; error := error st; month := month st; year := year st;
     cvv := cvv st; quantity := quantity st;
     generatedCards := v |}.

Definition quantityOptions : list nat := [10; 50; 100; 200; 300; 400; 500]%nat.

(** [Array.from({ length: n }, (_, i) => f(i))] with a pure callback. *)
Definition Array_from_index {A : Type} (n : nat) (f : nat -> A) : list A :=
  map f (seq 0 n).

(** [months] (line 55) and [years] (lines 56-57). *)
Definition months : list string :=
  Array_from_index 12
    (fun i => padStart 2 "0" (toString (add (Num (Z.of_nat i)) (Num 1)))).

Definition years (env : Env) : list string :=
  let currentYear := Num (getFullYear env) in
  Array_from_index 16 (fun i => toString (add currentYear (Num (Z.of_nat i)))).

(** The [onChange] handler of both BIN inputs (lines 211 and 341). *)
Definition onChangeBin (value : string) (st : State) : State :=
  setBin (slice0 6 (remove_non_digits value)) st.

(** The [onChange] handler of the CVV input (lines 380-383). *)
Definition onChangeCvv (value : string) (st : State) : State :=
  setCvv (slice0 3 (remove_non_digits value)) st.

(** [a || b()] on strings: the empty string is falsy, and [b] is called
    only then. *)
Definition or_else (a : string) (b : Rand string) : Rand string :=
  match a with
  | EmptyString => b
  | String _ _ => ret a
  end.

(** The body of the [for] loop of [generateCards] (lines 109-116). *)
Definition make_card (env : Env) (st : State) : Rand string :=
  let remainingLength := sub (Num 15) (Num (Z.of_nat (String.length (bin st)))) in
  digits <- generateRandomDigits env remainingLength ;;
  let cardNumber := bin st ++ digits in
  let validCardNumber := generateLuhn cardNumber in
  cardMonth <- or_else (month st) (generateRandomMonth env) ;;
  cardYear <- or_else (year st) (generateRandomYear env) ;;
  cardCVV <- or_else (cvv st) (generateRandomCVV env) ;;
  ret (validCardNumber ++ "|" ++ cardMonth ++ "|" ++ cardYear ++ "|" ++ cardCVV).

(** [for (let i = 0; i < quantity; i++) cards.push(...)], with [count]
    iterations left. *)
Fixpoint card_loop (env : Env) (st : State) (count : nat) (cards : list string)
  : Rand (list string) :=
  match count with
  | O => ret cards
  | S count' =>
      card <- make_card env st ;;
      card_loop env st count' (cards ++ [card])%list
  end.

(** [generateCards] (lines 96-119). *)
Definition generateCards (env : Env) (st : State) : Rand State :=
  if negb (String.length (bin st) =? 14)%nat then
    ret (setError (Some "Please enter a valid 6-digit BIN first") st)
  else if negb (cvv st =? "")%string
          && negb (String.length (cvv st) =? 3)%nat then
    ret (setError (Some "CVV must be 3 digits") st)
  else
    cards <- card_loop env st (quantity st) [] ;;
    ret (setGeneratedCards cards st).

(** What [handleSubmit] (lines 59-94) does to this state: the guard sets
    the error; past the guard the error is cleared before the request,
    and a failed request sets the network error. *)
Definition handleSubmit_start (st : State) : State :=
  if negb (String.length (bin st) =? 6)%nat then
    setError (Some "Please enter a valid 6-digit BIN") st
  else setError None st.

Definition handleSubmit_catch (st : State) : State :=
  setError
    (Some "Network error. Please check your connection and try again.") st.

(** The events of the page that touch this state. *)
Inductive Event : Type :=
| ChangeBin (value : string)
| ChangeMonth (value : string)
| ChangeYear (value : string)
| ChangeCvv (value : string)
| ClickQuantity (option : nat)
| ClickGenerate
| Submit
| RequestFailed.

(** One event: the state after it, and the calls of [Math.random] made. *)
Definition handle (env : Env) (e : Event) (st : State) : Rand State :=
  match e with
  | ChangeBin value => ret (onChangeBin value st)
  | ChangeMonth value => ret (setMonth value st)
  | ChangeYear value => ret (setYear value st)
  | ChangeCvv value => ret (onChangeCvv value st)
  | ClickQuantity option => ret (setQuantity option st)
  | ClickGenerate => generateCards env st
  | Submit => ret (handleSubmit_start st)
  | RequestFailed => ret (handleSubmit_catch st)
  end.

(** The values an event can carry: a [select] reports the value of one of
    its options (the first one, "Random", has the empty value), and there
    is one quantity button for each option. *)
Definition enabled (env : Env) (e : Event) : Prop :=
  match e with
  | ChangeMonth value => In value ("" :: months)
  | ChangeYear value => In value ("" :: years env)
  | ClickQuantity option => In option quantityOptions
  | _ => True
  end.

(** The states the page can be in: the initial one, and each state an
    event leads to from one of them. *)
Inductive reachable (env : Env) : State -> Prop :=
| reachable_initial : reachable env initial
| reachable_handle st e n :
    reachable env st ->
    enabled env e ->
    reachable env (fst (handle env e st n)).

(** What holds of the state whatever the user does. *)
Definition page_invariant (env : Env) (st : State) : Prop :=
  (String.length (bin st) <= 6)%nat
  /\ forallb is_digit (list_ascii_of_string (bin st)) = true
  /\ (String.length (cvv st) <= 3)%nat
  /\ forallb is_digit (list_ascii_of_string (cvv st)) = true
  /\ In (month st) ("" :: months)
  /\ In (year st) ("" :: years env)
  /\ In (quantity st) quantityOptions
  /\ generatedCards st = [].

(** One line of [generatedCards]: the card number, which is the BIN, one
    digit [d] and the digit [k] that [generateLuhn] appends to them, then
    the month, the year and the CVV, each the user's choice or, when that
    is empty, a random one. *)
Definition card_shape (env : Env) (st : State) (card : string) : Prop :=
  exists (d k : ascii) (m y c : string),
    card = generateLuhn (bin st ++ String d "")
           ++ "|" ++ m ++ "|" ++ y ++ "|" ++ c
    /\ is_digit d = true
    /\ generateLuhn (bin st ++ String d "") = bin st ++ String d (String k "")
    /\ is_digit k = true
    /\ match month st with
       | EmptyString => In m months
       | String _ _ => m = month st
       end
    /\ match year st with
       | EmptyString => In y (firstn 5 (years env))
       | String _ _ => y = year st
       end
    /\ match cvv st with
       | EmptyString =>
           String.length c = 3%nat
           /\ forallb is_digit (list_ascii_of_string c) = true
       | String _ _ => c = cvv st
       end.

End App.

(** A random source of thousandths, for running the helpers on concrete
    inputs: the values are [m / 1000], given by their numerators. *)
Definition sample_env : Env :=
  {| double := Z;
     Math_random_at := fun k => (Z.of_nat k * 7919 + 3) mod 1000;
     floor_times := fun m d => m * Z.pos d / 1000;
     getFullYear := 2026 |}.

(** A number that is a decimal digit. *)
Definition digit_number (x : number) : Prop :=
  exists d, x = Num d /\ 0 <= d <= 9.

(** The calls of [Math.random] one card takes: one for the last digit
    before the check digit, and one, one and three for a month, a year
    and a CVV the user left empty. *)
Definition draws_per_card (st : App.State) : nat :=
  (1 + (match App.month st with EmptyString => 1 | String _ _ => 0 end)
     + (match App.year st with EmptyString => 1 | String _ _ => 0 end)
     + (match App.cvv st with EmptyString => 3 | String _ _ => 0 end))%nat.

(** An integer of the 32-bit range, as a number. *)
Definition int32_number (x : number) : Prop :=
  exists z, x = Num z /\ int32 z.

(** Deleting every whitespace character. *)
Fixpoint strip_whitespace (s : string) : string :=
  match s with
  | EmptyString => EmptyString
  | String c s' =>
      if is_whitespace c then strip_whitespace s'
      else String c (strip_whitespace s')
  end.

(** * Properties *)

(** ** Sanity of the embedding on the specification's vectors *)

Example isValid_79927398713 : isValid "79927398713" = Normal true.
Proof. reflexivity. Qed.

Example isValid_79927398710 : isValid "79927398710" = Normal false.
Proof. reflexivity. Qed.

Example isValid_empty : isValid "" = Throw InvalidInput.
Proof. reflexivity. Qed.

Example formatCardNumber_16 :
  formatCardNumber "4111111111111111" = "4111 1111 1111 1111".
Proof. reflexivity. Qed.

Example groups4_17 :
  groups4 "41111111111111112" = ["4111"; "1111"; "1111"; "1111"; "2"].
Proof. reflexivity. Qed.

Example formatCardNumber_newline :
  formatCardNumber ("12" ++ String "010" "345678")
  = "12" ++ String "010" "3456 78".
Proof. reflexivity. Qed.

(** ** Characters and indexing *)

Lemma is_digit_range (c : ascii) :
  is_digit c = true -> 0 <= code c - 48 <= 9.
Proof.
  unfold is_digit. rewrite andb_true_iff, !Z.leb_le. lia.
Qed.

Lemma get_in_range (s : string) :
  forall i, (i < String.length s)%nat -> exists c, String.get i s = Some c.
Proof.
  induction s as [|c s IH]; intros i Hi; simpl in *.
  - lia.
  - destruct i as [|i].
    + now exists c.
    + apply IH. lia.
Qed.

Lemma get_forallb (P : ascii -> bool) (s : string) :
  forallb P (list_ascii_of_string s) = true ->
  forall i c, String.get i s = Some c -> P c = true.
Proof.
  induction s as [|a s IH]; simpl; intros Hall i c Hget.
  - discriminate.
  - apply andb_true_iff in Hall as [Ha Hs].
    destruct i as [|i].
    + now inversion Hget; subst.
    + eapply IH; eauto.
Qed.

Lemma forallb_false_get (P : ascii -> bool) (s : string) :
  forallb P (list_ascii_of_string s) = false ->
  exists i c, String.get i s = Some c /\ P c = false.
Proof.
  induction s as [|a s IH]; simpl; intros Hall.
  - discriminate.
  - destruct (P a) eqn:Ha; simpl in Hall.
    + destruct (IH Hall) as (i & c & Hget & Hc).
      now exists (S i), c.
    + now exists 0%nat, a.
Qed.

Lemma get_Some_lt (s : string) :
  forall i c, String.get i s = Some c -> (i < String.length s)%nat.
Proof.
  induction s as [|a s IH]; simpl; intros i c Hget.
  - discriminate.
  - destruct i as [|i]; [lia|]. apply IH in Hget. lia.
Qed.

Lemma is_DigitString_forallb (s : string) :
  is_DigitString s = true -> forallb is_digit (list_ascii_of_string s) = true.
Proof. destruct s; [discriminate | auto]. Qed.

(** ** The loop of [generateLuhn] *)

(** On a digit the body adds a value between 0 and 9. *)
Lemma loop_body_digit (p : string) (i : nat) (c : ascii) (st : LoopState) (a : Z) :
  String.get i p = Some c ->
  is_digit c = true ->
  sum st = Num a ->
  exists d, 0 <= d <= 9 /\ sum (loop_body p i st) = Num (a + d).
Proof.
  intros Hget Hc Hsum. unfold loop_body. rewrite Hget, Hsum. simpl.
  rewrite Hc. pose proof (is_digit_range c Hc) as Hr.
  destruct (shouldDouble st); simpl.
  - destruct (9 <? (code c - 48) * 2) eqn:Hgt; simpl.
    + apply Z.ltb_lt in Hgt. exists ((code c - 48) * 2 - 9). split; [lia | reflexivity].
    + apply Z.ltb_ge in Hgt. exists ((code c - 48) * 2). split; [lia | reflexivity].
  - exists (code c - 48). split; [lia | reflexivity].
Qed.

(** On a character that is not a digit the body makes the sum NaN. *)
Lemma loop_body_nondigit (p : string) (i : nat) (c : ascii) (st : LoopState) :
  String.get i p = Some c ->
  is_digit c = false ->
  sum (loop_body p i st) = NaN.
Proof.
  intros Hget Hc. unfold loop_body. rewrite Hget. simpl. rewrite Hc.
  destruct (shouldDouble st), (sum st); reflexivity.
Qed.

Lemma loop_body_NaN (p : string) (i : nat) (st : LoopState) :
  sum st = NaN -> sum (loop_body p i st) = NaN.
Proof. intros H. unfold loop_body. rewrite H. reflexivity. Qed.

Lemma loop_NaN (p : string) (n : nat) :
  forall st, sum st = NaN -> sum (loop p n st) = NaN.
Proof.
  induction n as [|n IH]; intros st H; simpl; [assumption|].
  apply IH, loop_body_NaN, H.
Qed.

Lemma loop_nondigit (p : string) (i : nat) (c : ascii) :
  String.get i p = Some c ->
  is_digit c = false ->
  forall n st, (i < n)%nat -> sum (loop p n st) = NaN.
Proof.
  intros Hget Hc. induction n as [|n IH]; intros st Hi; [lia|]. simpl.
  destruct (Nat.eq_dec i n) as [->|Hne].
  - apply loop_NaN. eapply loop_body_nondigit; eauto.
  - apply IH. lia.
Qed.

Lemma loop_digits (p : string) :
  forallb is_digit (list_ascii_of_string p) = true ->
  forall n st a,
    (n <= String.length p)%nat ->
    sum st = Num a -> 0 <= a ->
    exists b, sum (loop p n st) = Num b /\ a <= b.
Proof.
  intros Hall. induction n as [|n IH]; intros st a Hn Hsum Ha; simpl.
  - exists a. split; [assumption | lia].
  - destruct (get_in_range p n) as [c Hget]; [lia|].
    pose proof (get_forallb _ _ Hall _ _ Hget) as Hc.
    destruct (loop_body_digit p n c st a Hget Hc Hsum) as (d & Hd & Hbody).
    destruct (IH (loop_body p n st) (a + d)) as (b & Hb & Hle); [lia | assumption | lia |].
    exists b. split; [assumption | lia].
Qed.

Lemma luhn_sum_digits (p : string) :
  forallb is_digit (list_ascii_of_string p) = true ->
  exists n, luhn_sum p = Num n /\ 0 <= n.
Proof.
  intros Hall. unfold luhn_sum.
  destruct (loop_digits p Hall (String.length p) loop_init 0) as (b & Hb & Hle);
    [lia | reflexivity | lia |].
  now exists b.
Qed.

(** ** The check digit *)

(** The argument of [%]: the distance from [n] to the next multiple of
    ten above it, between 1 and 10. *)
Lemma next_multiple_of_ten (n : Z) :
  (n / 10 + 1) * 10 - n = 10 - n mod 10 /\ 0 < 10 - n mod 10 <= 10.
Proof.
  pose proof (Z.div_mod n 10 ltac:(lia)) as Hdm.
  pose proof (Z.mod_pos_bound n 10 ltac:(lia)) as Hb.
  lia.
Qed.

Lemma checkDigit_Num (n : Z) :
  checkDigit (Num n) = Num ((10 - n mod 10) mod 10).
Proof.
  unfold checkDigit, floor_div, add, mul, sub, rem.
  cbv beta iota. f_equal.
  destruct (next_multiple_of_ten n) as [-> Hb].
  apply Z.rem_mod_nonneg; lia.
Qed.

Lemma toString_digit (d : Z) :
  0 <= d <= 9 ->
  exists c, toString (Num d) = String c EmptyString
            /\ is_digit c = true /\ code c - 48 = d.
Proof.
  intros Hd.
  assert (d = 0 \/ d = 1 \/ d = 2 \/ d = 3 \/ d = 4 \/ d = 5 \/ d = 6
          \/ d = 7 \/ d = 8 \/ d = 9) as Hcases by lia.
  repeat (destruct Hcases as [-> | Hcases]); try subst d;
    eexists; repeat split; reflexivity.
Qed.

(** ** Which positions the loop doubles *)

Lemma get_nth_error (s : string) :
  forall i, String.get i s = nth_error (list_ascii_of_string s) i.
Proof.
  induction s as [|c s IH]; intros [|i]; simpl; auto.
Qed.

Lemma length_list_ascii (s : string) :
  List.length (list_ascii_of_string s) = String.length s.
Proof. induction s; simpl; auto. Qed.

Lemma list_ascii_append (s t : string) :
  list_ascii_of_string (s ++ t)
  = (list_ascii_of_string s ++ list_ascii_of_string t)%list.
Proof. induction s as [|c s IH]; simpl; [reflexivity | now rewrite IH]. Qed.

Lemma firstn_snoc {A : Type} (l : list A) :
  forall n x, nth_error l n = Some x -> firstn (S n) l = (firstn n l ++ [x])%list.
Proof.
  induction l as [|y l IH]; intros [|n] x H; simpl in *; try discriminate.
  - now inversion H.
  - f_equal. now apply IH.
Qed.

Lemma loop_body_digit_value (p : string) (i : nat) (c : ascii) (st : LoopState)
    (a : Z) :
  String.get i p = Some c ->
  is_digit c = true ->
  sum st = Num a ->
  loop_body p i st
  = {| sum := Num (a + if shouldDouble st then luhn_double (code c - 48)
                       else code c - 48);
       shouldDouble := negb (shouldDouble st) |}.
Proof.
  intros Hget Hc Hsum. unfold loop_body. rewrite Hget, Hsum.
  unfold parseInt. rewrite Hc. unfold luhn_double.
  destruct (shouldDouble st); [|reflexivity].
  unfold mul, gt. rewrite (Z.mul_comm (code c - 48) 2).
  now destruct (9 <? 2 * (code c - 48)).
Qed.

Section DoublingPositions.

Variable doubled : nat -> bool.
Hypothesis doubled_alternates : forall k, doubled (S k) = negb (doubled k).

(** Entered at index [n - 1] with the flag that [doubled] gives
    position [pos], the loop adds the position sum of the first [n]
    characters, read from the right. *)
Lemma loop_position_sum (p : string) :
  forallb is_digit (list_ascii_of_string p) = true ->
  forall n st a pos,
    (n <= String.length p)%nat ->
    sum st = Num a ->
    shouldDouble st = doubled pos ->
    sum (loop p n st)
    = Num (a + position_sum doubled pos
                 (rev (map (fun c => code c - 48)
                           (firstn n (list_ascii_of_string p))))).
Proof.
  intros Hall. induction n as [|n IH]; intros st a pos Hn Hsum Hflag.
  - simpl. rewrite Hsum. f_equal. lia.
  - destruct (get_in_range p n) as [c Hget]; [lia|].
    pose proof (get_forallb _ _ Hall _ _ Hget) as Hc.
    cbn [loop].
    rewrite (loop_body_digit_value p n c st a Hget Hc Hsum).
    rewrite get_nth_error in Hget.
    rewrite (firstn_snoc _ _ _ Hget), map_app, rev_app_distr.
    cbn [map rev app position_sum].
    rewrite (IH _ (a + if shouldDouble st then luhn_double (code c - 48)
                       else code c - 48) (S pos));
      [| lia | reflexivity | cbn [shouldDouble]; now rewrite Hflag, doubled_alternates].
    rewrite Hflag. f_equal. lia.
Qed.

End DoublingPositions.

Lemma firstn_length_string (s : string) :
  firstn (String.length s) (list_ascii_of_string s) = list_ascii_of_string s.
Proof. rewrite <- length_list_ascii. apply firstn_all. Qed.

(** The loop as written, entered with [shouldDouble = false], doubles the
    even positions from the right of its argument. *)
Lemma luhn_sum_even_positions (p : string) :
  forallb is_digit (list_ascii_of_string p) = true ->
  luhn_sum p = Num (position_sum Nat.even 1 (digits_from_right p)).
Proof.
  intros Hall. unfold luhn_sum, digits_from_right.
  rewrite (loop_position_sum Nat.even) with (a := 0) (pos := 1%nat); auto.
  - now rewrite firstn_length_string.
  - intros k. now rewrite Nat.even_succ, Nat.negb_even.
Qed.

(** Entered with [shouldDouble = true], the same loop computes the
    specification's reference sum. *)
Lemma loop_from_true_reference_sum (p : string) :
  forallb is_digit (list_ascii_of_string p) = true ->
  sum (loop p (String.length p) {| sum := Num 0; shouldDouble := true |})
  = Num (reference_sum p).
Proof.
  intros Hall. unfold reference_sum, digits_from_right.
  rewrite (loop_position_sum Nat.odd) with (a := 0) (pos := 1%nat); auto.
  - now rewrite firstn_length_string.
  - intros k. now rewrite Nat.odd_succ, Nat.negb_odd.
Qed.

Lemma position_sum_shift (f g : nat -> bool) :
  (forall k, f (S k) = g k) ->
  forall ds pos, position_sum f (S pos) ds = position_sum g pos ds.
Proof.
  intros Hfg. induction ds as [|d ds IH]; intros pos; simpl; [reflexivity|].
  now rewrite Hfg, IH.
Qed.

Lemma is_DigitString_append (p : string) (c : ascii) :
  forallb is_digit (list_ascii_of_string p) = true ->
  is_digit c = true ->
  is_DigitString (p ++ String c EmptyString) = true.
Proof.
  intros Hp Hc.
  assert (H : forallb is_digit (list_ascii_of_string (p ++ String c EmptyString))
              = true).
  { rewrite list_ascii_append, forallb_app, Hp. simpl. now rewrite Hc. }
  destruct p; simpl in *; assumption.
Qed.

(** The validator on a digit string followed by the check digit computed
    from a sum [n]: it accepts exactly when [n] agrees with the reference
    sum modulo 10. *)
Lemma isValid_append_checkDigit (p : string) (n : Z) :
  forallb is_digit (list_ascii_of_string p) = true ->
  isValid (p ++ toString (checkDigit (Num n)))
  = Normal ((reference_checkDigit n + reference_sum p) mod 10 =? 0).
Proof.
  intros Hall. rewrite (checkDigit_Num n).
  fold (reference_checkDigit n).
  destruct (toString_digit (reference_checkDigit n)) as (c & Hstr & Hc & Hval).
  { unfold reference_checkDigit.
    pose proof (Z.mod_pos_bound (10 - n mod 10) 10 ltac:(lia)). lia. }
  rewrite Hstr. unfold isValid.
  rewrite (is_DigitString_append p c Hall Hc). f_equal.
  unfold digits_from_right, reference_sum.
  rewrite list_ascii_append, map_app, rev_app_distr.
  cbn [list_ascii_of_string map rev app position_sum Nat.even].
  rewrite Hval.
  rewrite (position_sum_shift Nat.even Nat.odd); [reflexivity|].
  intros k. apply Nat.even_succ.
Qed.

(** With the flag entered as [true] the round trip would hold: the
    failure of C1 comes from the initial value of [shouldDouble] alone. *)
Lemma roundtrip_from_true (p : string) :
  forallb is_digit (list_ascii_of_string p) = true ->
  isValid (p ++ toString (checkDigit
             (sum (loop p (String.length p)
                        {| sum := Num 0; shouldDouble := true |}))))
  = Normal true.
Proof.
  intros Hall. rewrite (loop_from_true_reference_sum p Hall).
  set (r := reference_sum p).
  rewrite (isValid_append_checkDigit p r Hall). fold r. f_equal.
  apply Z.eqb_eq. unfold reference_checkDigit.
  pose proof (Z.mod_pos_bound r 10 ltac:(lia)) as Hb.
  destruct (Z.eq_dec (r mod 10) 0) as [E|E].
  - rewrite E. change ((10 - 0) mod 10) with 0. now rewrite Z.add_0_l.
  - rewrite (Z.mod_small (10 - r mod 10)) by lia.
    rewrite (Z.div_mod r 10) at 2 by lia.
    replace (10 - r mod 10 + (10 * (r / 10) + r mod 10))
      with ((r / 10 + 1) * 10) by lia.
    apply Z.mod_mul. lia.
Qed.

(** [generateLuhn] passes the validator exactly when the sum over the even
    positions, which it computes, happens to agree with the reference sum
    modulo 10. *)
Lemma isValid_generateLuhn (p : string) :
  forallb is_digit (list_ascii_of_string p) = true ->
  isValid (generateLuhn p)
  = Normal ((reference_checkDigit
               (position_sum Nat.even 1 (digits_from_right p))
             + reference_sum p) mod 10 =? 0).
Proof.
  intros Hall. unfold generateLuhn.
  rewrite (luhn_sum_even_positions p Hall).
  now apply isValid_append_checkDigit.
Qed.

(** ** The claims about [generateLuhn] *)

(** C1 (round trip).  The specification requires
    [isValid (generateLuhn p)] to hold for every digit string [p].  On the
    code it fails: for the prefix ["7992739871"] the function appends 4,
    and for ["4"] it appends 6, and neither result passes the validator. *)
Theorem generateLuhn_roundtrip_fails :
  isValid (generateLuhn "7992739871") = Normal false
  /\ isValid (generateLuhn "4") = Normal false.
Proof. split; reflexivity. Qed.

(** C2 (doubling rule).  The specification's reference sum doubles the
    digits at the odd positions from the right of the prefix.  The loop
    starts with [shouldDouble = false], so it leaves position 1 unchanged
    and doubles the even positions: the two sums differ already on ["4"]
    (4 against 8) and on ["7992739871"] (56 against 67). *)
Theorem luhn_sum_differs_from_reference :
  luhn_sum "4" = Num 4 /\ reference_sum "4" = 8
  /\ luhn_sum "7992739871" = Num 56 /\ reference_sum "7992739871" = 67.
Proof. repeat split; reflexivity. Qed.

(** C3 (known vector).  The specification expects ["79927398713"]; the
    code returns ["79927398714"]. *)
Theorem generateLuhn_7992739871 :
  generateLuhn "7992739871" = "79927398714"
  /\ generateLuhn "7992739871" <> "79927398713".
Proof. split; [reflexivity | discriminate]. Qed.

(** C4 (single digit).  The specification expects ["42"]; the code does
    not double the single digit (sum 4) and returns ["46"]. *)
Theorem generateLuhn_4 :
  generateLuhn "4" = "46" /\ generateLuhn "4" <> "42".
Proof. split; [reflexivity | discriminate]. Qed.

(** C5 as stated fails: on ["12a3"] and on [""] the call completes
    normally, with ["12a3NaN"] and ["0"]; no error is raised. *)
Lemma generateLuhn_invalid_input_returns :
  call_generateLuhn "12a3" = Normal "12a3NaN"
  /\ call_generateLuhn "12a3" <> Throw InvalidInput
  /\ call_generateLuhn "" = Normal "0"
  /\ call_generateLuhn "" <> Throw InvalidInput.
Proof. repeat split; (reflexivity || discriminate). Qed.

(** C5 (amended).  [generateLuhn] never fails.  On the empty string it
    returns ["0"]; on an input with at least one character outside
    '0'-'9' it returns the input followed by ["NaN"]. *)
Theorem generateLuhn_invalid_input (s : string) :
  is_DigitString s = false ->
  call_generateLuhn s
  = Normal (match s with
            | EmptyString => "0"
            | String _ _ => s ++ "NaN"
            end).
Proof.
  intros Hinv. unfold call_generateLuhn. f_equal.
  destruct s as [|a s]; [reflexivity|].
  unfold is_DigitString in Hinv.
  destruct (forallb_false_get _ _ Hinv) as (i & c & Hget & Hc).
  unfold generateLuhn, luhn_sum.
  rewrite (loop_nondigit _ i c Hget Hc); [reflexivity|].
  eapply get_Some_lt; eauto.
Qed.

Lemma generateLuhn_invalid_input_witness :
  is_DigitString "12a3" = false
  /\ call_generateLuhn "12a3" = Normal "12a3NaN".
Proof.
  split; [reflexivity | apply (generateLuhn_invalid_input "12a3"); reflexivity].
Defined.


(** Below 2^53 the binary64 expression gives the specification's digit:
    on every sum a string of up to 444 digits can reach, and at the last
    integer below 2^53. *)
Example checkDigit_binary64_agrees :
  Binary64.agrees_below 4000 = true
  /\ Binary64.checkDigit (Binary64.of_Z (2 ^ 53 - 1))
     = Binary64.of_Z (reference_checkDigit (2 ^ 53 - 1)).
Proof. split; vm_compute; reflexivity. Qed.



(** C7 (output shape).  For every non-empty digit string [prefix],
    [generateLuhn prefix] is [prefix] followed by exactly one character,
    and that character is a decimal digit. *)
Theorem generateLuhn_shape (prefix : string) :
  is_DigitString prefix = true ->
  exists c, generateLuhn prefix = prefix ++ String c EmptyString
            /\ is_digit c = true.
Proof.
  intros Hds. apply is_DigitString_forallb in Hds.
  destruct (luhn_sum_digits prefix Hds) as (n & Hn & Hpos).
  unfold generateLuhn. rewrite Hn, (checkDigit_Num n).
  destruct (toString_digit ((10 - n mod 10) mod 10)) as (c & Hc & Hd & _).
  - pose proof (Z.mod_pos_bound (10 - n mod 10) 10 ltac:(lia)). lia.
  - exists c. now rewrite Hc.
Qed.

Lemma generateLuhn_shape_witness :
  is_DigitString "7992739871" = true
  /\ exists c, generateLuhn "7992739871" = "7992739871" ++ String c EmptyString
               /\ is_digit c = true.
Proof.
  split; [reflexivity | apply (generateLuhn_shape "7992739871"); reflexivity].
Defined.

(** ** Determinism of the loop *)

Lemma step_deterministic (p : string) (c c1 c2 : Config) :
  step p c c1 -> step p c c2 -> c1 = c2.
Proof.
  intros H1 H2. inversion H1; subst. inversion H2; subst. reflexivity.
Qed.

Lemma run_deterministic (p : string) (c : Config) (st1 st2 : LoopState) :
  run p c st1 -> run p c st2 -> st1 = st2.
Proof.
  intros H1. revert st2.
  induction H1 as [i st Hi | c c' st' Hstep Hrun IH]; intros st2 H2.
  - inversion H2 as [i2 s2 Hi2 | c2 c2' s2 Hstep2 Hrun2]; subst.
    + reflexivity.
    + inversion Hstep2; subst. lia.
  - inversion H2 as [i2 s2 Hi2 | c2 c2' s2 Hstep2 Hrun2]; subst.
    + inversion Hstep; subst. lia.
    + rewrite (step_deterministic _ _ _ _ Hstep Hstep2) in IH.
      now apply IH.
Qed.

(** The transition system reaches exactly the state [loop] computes. *)
Lemma run_loop (p : string) (n : nat) :
  forall st, run p (Z.of_nat n - 1, st) (loop p n st).
Proof.
  induction n as [|n IH]; intros st; simpl loop.
  - apply run_exit. lia.
  - eapply run_iter.
    + apply step_iter. lia.
    + replace (Z.to_nat (Z.of_nat (S n) - 1)) with n by lia.
      replace (Z.of_nat (S n) - 1 - 1) with (Z.of_nat n - 1) by lia.
      apply IH.
Qed.

(** Every call returns, and returns what [generateLuhn] computes. *)
Lemma returns_generateLuhn (p : string) : returns p (generateLuhn p).
Proof.
  unfold generateLuhn, luhn_sum. apply returns_intro, run_loop.
Qed.

Lemma returns_inv (p out : string) :
  returns p out -> out = generateLuhn p.
Proof.
  intros H. inversion H as [st Hrun]; subst.
  pose proof (run_loop p (String.length p) loop_init) as Hloop.
  now rewrite (run_deterministic _ _ _ _ Hrun Hloop).
Qed.

(** C8 (determinism).  [generateLuhn] is a function of its input alone:
    two calls on the same string return the same string. *)
Theorem generateLuhn_deterministic (p out1 out2 : string) :
  returns p out1 -> returns p out2 -> out1 = out2.
Proof.
  intros H1 H2. apply returns_inv in H1, H2. congruence.
Qed.

Lemma generateLuhn_deterministic_witness :
  returns "7992739871" (generateLuhn "7992739871")
  /\ returns "7992739871" "79927398714"
  /\ generateLuhn "7992739871" = "79927398714".
Proof.
  assert (H : returns "7992739871" (generateLuhn "7992739871"))
    by apply returns_generateLuhn.
  split; [exact H | split; [exact H |]].
  apply (generateLuhn_deterministic "7992739871"); exact H.
Defined.

(** ** [slowAES.decrypt] *)


Lemma nth_error_map_index {A B : Type} (f : A -> nat -> B) (l : list A) :
  forall k i,
    nth_error (slowAES.map_index f k l) i
    = option_map (fun x => f x (k + i)%nat) (nth_error l i).
Proof.
  induction l as [|x l IH]; intros k i; simpl.
  - now destruct i.
  - destruct i as [|i]; simpl.
    + now rewrite Nat.add_0_r.
    + rewrite IH. now replace (S k + i)%nat with (k + S i)%nat by lia.
Qed.

(** [|| 0] does not show through [^]: NaN, 0 and [undefined] all count
    as 0 there. *)
Lemma ToInt32_or_zero_read (a : list number) (i : nat) :
  ToInt32 (or_zero (slowAES.read_mod a i)) = ToInt32 (key_at a i).
Proof.
  destruct a as [|x a]; [reflexivity|].
  unfold slowAES.read_mod, key_at.
  set (k := Nat.modulo i (List.length (x :: a))).
  assert (Hk : (k < List.length (x :: a))%nat)
    by (apply Nat.mod_upper_bound; simpl; lia).
  rewrite (nth_error_nth' (x :: a) (Num 0) Hk).
  destruct (nth k (x :: a) (Num 0)) as [z|]; [|reflexivity].
  unfold or_zero. destruct (z =? 0) eqn:Hz; [|reflexivity].
  apply Z.eqb_eq in Hz. now subst.
Qed.

Lemma bitxor_or_zero_read (x : number) (a : list number) (i : nat) :
  bitxor x (or_zero (slowAES.read_mod a i)) = bitxor x (key_at a i).
Proof. unfold bitxor. now rewrite ToInt32_or_zero_read. Qed.

Lemma ToInt32_int32 (z : Z) : int32 z -> ToInt32 (Num z) = z.
Proof.
  unfold int32, ToInt32. intros H.
  rewrite Z.mod_small; lia.
Qed.

Lemma lxor_below (n x y : Z) :
  0 < n -> 0 <= x < 2 ^ n -> 0 <= y < 2 ^ n -> 0 <= Z.lxor x y < 2 ^ n.
Proof.
  intros Hn Hx Hy.
  assert (Hnn : 0 <= Z.lxor x y) by (apply Z.lxor_nonneg; lia).
  split; [assumption|].
  destruct (Z.eq_dec (Z.lxor x y) 0) as [-> | Hne].
  - apply Z.pow_pos_nonneg; lia.
  - apply Z.log2_lt_pow2; [lia|].
    pose proof (Z.log2_lxor x y ltac:(lia) ltac:(lia)) as Hlog.
    assert (Hlx : Z.log2 x < n).
    { destruct (Z.eq_dec x 0) as [-> | Hx0]; [simpl; lia|].
      apply Z.log2_lt_pow2; lia. }
    assert (Hly : Z.log2 y < n).
    { destruct (Z.eq_dec y 0) as [-> | Hy0]; [simpl; lia|].
      apply Z.log2_lt_pow2; lia. }
    lia.
Qed.

Lemma lnot_spec (z : Z) : Z.lnot z = - z - 1.
Proof. unfold Z.lnot. lia. Qed.

Lemma lxor_int32 (x y : Z) : int32 x -> int32 y -> int32 (Z.lxor x y).
Proof.
  unfold int32. intros Hx Hy.
  destruct (Z.neg_nonneg_cases x) as [Hxn | Hxp];
    destruct (Z.neg_nonneg_cases y) as [Hyn | Hyp].
  - rewrite <- Z.lxor_lnot_lnot.
    pose proof (lxor_below 31 (Z.lnot x) (Z.lnot y)) as H.
    rewrite !lnot_spec in *. lia.
  - rewrite <- (Z.lnot_involutive (Z.lxor x y)), Z.lnot_lxor_l.
    pose proof (lxor_below 31 (Z.lnot x) y) as H.
    rewrite (lnot_spec (Z.lxor _ _)). rewrite lnot_spec in *. lia.
  - rewrite <- (Z.lnot_involutive (Z.lxor x y)), Z.lnot_lxor_r.
    pose proof (lxor_below 31 x (Z.lnot y)) as H.
    rewrite (lnot_spec (Z.lxor _ _)). rewrite lnot_spec in *. lia.
  - pose proof (lxor_below 31 x y). lia.
Qed.

Lemma bitxor_int32 (x y : Z) :
  int32 x -> int32 y -> bitxor (Num x) (Num y) = Num (Z.lxor x y).
Proof.
  intros Hx Hy. unfold bitxor. now rewrite !ToInt32_int32.
Qed.

(** C9 (the stub is XOR).  For every index [i] below the length of [c],
    element [i] of [slowAES.decrypt c b a f] is [c[i] ^ x ^ y] with [x] the key
    element of [a] and [y] that of [f] (0 for an empty array); [b] has no
    effect.  On integers of the 32-bit range, [^] is the exclusive or of
    the integers themselves. *)
Theorem decrypt_is_xor (c : list number) (b : number) (a f : list number)
    (i : nat) :
  (i < List.length c)%nat ->
  nth_error (slowAES.decrypt c b a f) i
  = Some (bitxor (bitxor (nth i c (Num 0)) (key_at a i)) (key_at f i))
  /\ (forall b', slowAES.decrypt c b' a f = slowAES.decrypt c b a f)
  /\ (forall x y z,
        nth i c (Num 0) = Num x -> key_at a i = Num y -> key_at f i = Num z ->
        int32 x -> int32 y -> int32 z ->
        nth_error (slowAES.decrypt c b a f) i = Some (Num (Z.lxor (Z.lxor x y) z))).
Proof.
  intros Hi.
  assert (Hnth : nth_error (slowAES.decrypt c b a f) i
                 = Some (bitxor (bitxor (nth i c (Num 0)) (key_at a i))
                                (key_at f i))).
  { unfold slowAES.decrypt. rewrite nth_error_map_index.
    rewrite (nth_error_nth' c (Num 0) Hi). simpl.
    now rewrite !bitxor_or_zero_read. }
  split; [exact Hnth | split; [reflexivity|]].
  intros x y z Hx Hy Hz Rx Ry Rz.
  rewrite Hnth, Hx, Hy, Hz. f_equal.
  rewrite (bitxor_int32 x y Rx Ry).
  apply bitxor_int32; [now apply lxor_int32 | assumption].
Qed.

Lemma decrypt_is_xor_witness :
  (1 < List.length [Num 12; Num 10; Num 7])%nat
  /\ nth_error (slowAES.decrypt [Num 12; Num 10; Num 7] (Num 99) [Num 6; NaN] []) 1
     = Some (Num 10).
Proof.
  split; [simpl; lia|].
  apply (decrypt_is_xor [Num 12; Num 10; Num 7] (Num 99) [Num 6; NaN] [] 1).
  simpl; lia.
Defined.

(** ** [formatCardNumber] *)

(** Induction four characters at a time. *)
Lemma string_ind4 (P : string -> Prop) :
  P EmptyString ->
  (forall c1, P (String c1 EmptyString)) ->
  (forall c1 c2, P (String c1 (String c2 EmptyString))) ->
  (forall c1 c2 c3, P (String c1 (String c2 (String c3 EmptyString)))) ->
  (forall c1 c2 c3 c4 rest,
      P rest -> P (String c1 (String c2 (String c3 (String c4 rest))))) ->
  forall s, P s.
Proof.
  intros H0 H1 H2 H3 H4 s.
  assert (H : P s
              /\ (forall c1, P (String c1 s))
              /\ (forall c1 c2, P (String c1 (String c2 s)))
              /\ (forall c1 c2 c3, P (String c1 (String c2 (String c3 s))))).
  { induction s as [|c s (IHa & IHb & IHc & IHd)].
    - auto.
    - repeat split; auto. }
  apply H.
Qed.

Lemma no_whitespace_cons (c : ascii) (s : string) :
  no_whitespace (String c s) = true ->
  is_whitespace c = false /\ no_whitespace s = true.
Proof.
  unfold no_whitespace. simpl. rewrite andb_true_iff, negb_true_iff. tauto.
Qed.

Lemma not_whitespace_dot (c : ascii) : is_whitespace c = false -> dot c = true.
Proof.
  unfold is_whitespace, dot, is_line_terminator. intros H.
  destruct (Z.eqb_spec (code c) 10) as [E|_];
    [rewrite E in H; discriminate H|].
  destruct (Z.eqb_spec (code c) 13) as [E|_];
    [rewrite E in H; discriminate H|].
  reflexivity.
Qed.

Lemma not_whitespace_not_space (c : ascii) :
  is_whitespace c = false -> (c =? " ")%char = false.
Proof.
  intros H. destruct (Ascii.eqb_spec c " ") as [->|_];
    [discriminate H | reflexivity].
Qed.

Lemma trimEnd_cons (c : ascii) (s : string) :
  is_whitespace c = false -> trimEnd (String c s) = String c (trimEnd s).
Proof.
  intros H. simpl. rewrite H. now destruct (trimEnd s).
Qed.

Lemma trimEnd_space (s : string) :
  trimEnd (String " " s)
  = match trimEnd s with
    | EmptyString => EmptyString
    | String _ _ => String " " (trimEnd s)
    end.
Proof. simpl. now destruct (trimEnd s). Qed.

Lemma trimEnd_no_whitespace (s : string) :
  no_whitespace s = true -> trimEnd s = s.
Proof.
  induction s as [|c s IH]; intros H; [reflexivity|].
  apply no_whitespace_cons in H as [Hc Hs].
  now rewrite (trimEnd_cons c s Hc), (IH Hs).
Qed.

Lemma remove_spaces_no_whitespace (s : string) :
  no_whitespace s = true -> remove_spaces s = s.
Proof.
  induction s as [|c s IH]; intros H; [reflexivity|].
  apply no_whitespace_cons in H as [Hc Hs].
  simpl. now rewrite (not_whitespace_not_space c Hc), (IH Hs).
Qed.

Lemma last_char_no_whitespace (s : string) :
  no_whitespace s = true -> last_char s <> Some " "%char.
Proof.
  induction s as [|c s IH]; intros H; [discriminate|].
  apply no_whitespace_cons in H as [Hc Hs].
  destruct s as [|c' s']; simpl.
  - intros E. inversion E; subst. discriminate Hc.
  - now apply IH.
Qed.

Lemma last_char_append_space (t : string) :
  last_char (t ++ " ") = Some " "%char.
Proof.
  induction t as [|c t IH]; [reflexivity|].
  simpl. rewrite IH. now destruct (t ++ " ").
Qed.

Lemma length_drop_le (n : nat) :
  forall s, (String.length (drop n s) <= String.length s)%nat.
Proof.
  induction n as [|n IH]; intros s; destruct s as [|c s]; simpl; try lia.
  specialize (IH s). lia.
Qed.

(** Any count that covers the length gives the same groups. *)
Lemma groups_of_count (m : nat) :
  forall k1 k2 s,
    (String.length s <= k1)%nat -> (String.length s <= k2)%nat ->
    groups_of (S m) k1 s = groups_of (S m) k2 s.
Proof.
  induction k1 as [|k1 IH]; intros k2 s H1 H2.
  - destruct s; simpl in H1; [|lia]. now destruct k2.
  - destruct s as [|c s]; [now destruct k2|].
    destruct k2 as [|k2]; simpl in H1, H2; [lia|].
    cbn [groups_of]. f_equal.
    pose proof (length_drop_le m s) as Hd.
    apply IH; simpl; lia.
Qed.

Lemma groups_of_S (n k : nat) (c : ascii) (s : string) :
  groups_of n (S k) (String c s)
  = take n (String c s) :: groups_of n k (drop n (String c s)).
Proof. reflexivity. Qed.

Lemma groups4_step (c1 c2 c3 c4 : ascii) (rest : string) :
  groups4 (String c1 (String c2 (String c3 (String c4 rest))))
  = String c1 (String c2 (String c3 (String c4 EmptyString))) :: groups4 rest.
Proof.
  unfold groups4.
  change (String.length (String c1 (String c2 (String c3 (String c4 rest)))))
    with (S (S (S (S (String.length rest))))).
  remember (S (S (S (String.length rest)))) as k eqn:Hk.
  rewrite groups_of_S.
  change (drop 4 (String c1 (String c2 (String c3 (String c4 rest)))))
    with rest.
  change (take 4 (String c1 (String c2 (String c3 (String c4 rest)))))
    with (String c1 (String c2 (String c3 (String c4 (take 0 rest))))).
  replace (take 0 rest) with EmptyString by now destruct rest.
  f_equal. apply groups_of_count; lia.
Qed.

Lemma joined_groups_step (c1 c2 c3 c4 : ascii) (rest : string) :
  joined_groups (String c1 (String c2 (String c3 (String c4 rest))))
  = String c1 (String c2 (String c3 (String c4
      match joined_groups rest with
      | EmptyString => EmptyString
      | String _ _ => String " " (joined_groups rest)
      end))).
Proof.
  unfold joined_groups. rewrite groups4_step.
  destruct rest as [|c rest]; [reflexivity|].
  unfold groups4. cbn [String.length]. rewrite groups_of_S.
  destruct (groups_of 4 _ _) as [|g gs];
    cbn [String.concat take append]; reflexivity.
Qed.

(** The groups partition the string, and each holds one to four
    characters. *)
Lemma groups4_partition (s : string) :
  String.concat "" (groups4 s) = s
  /\ Forall (fun g => (1 <= String.length g <= 4)%nat) (groups4 s).
Proof.
  induction s as [|c1|c1 c2|c1 c2 c3|c1 c2 c3 c4 rest [IHc IHl]]
    using string_ind4;
    try (split; [reflexivity | repeat constructor; simpl; lia]).
  rewrite groups4_step. split.
  - destruct (groups4 rest) as [|g gs] eqn:E.
    + simpl in IHc. now subst rest.
    + cbn [String.concat append] in *. now rewrite IHc.
  - constructor; [simpl; lia | assumption].
Qed.

Lemma replace_groups_step (c1 c2 c3 c4 : ascii) (rest : string) :
  dot c1 = true -> dot c2 = true -> dot c3 = true -> dot c4 = true ->
  replace_groups (String c1 (String c2 (String c3 (String c4 rest))))
  = String c1 (String c2 (String c3 (String c4
      (String " " (replace_groups rest))))).
Proof.
  intros H1 H2 H3 H4. cbn [replace_groups]. now rewrite H1, H2, H3, H4.
Qed.

(** Fewer than four characters: no match, the string is copied. *)
Lemma replace_groups_short (s : string) :
  (String.length s < 4)%nat -> replace_groups s = s.
Proof.
  intros H.
  destruct s as [|c1 [|c2 [|c3 [|c4 s]]]]; try reflexivity.
  simpl in H. lia.
Qed.

Lemma joined_groups_short (s : string) :
  (String.length s < 4)%nat -> joined_groups s = s.
Proof.
  intros H.
  destruct s as [|c1 [|c2 [|c3 [|c4 s]]]]; try reflexivity.
  simpl in H. lia.
Qed.

Lemma format_invariant_short (s : string) :
  (String.length s < 4)%nat -> no_whitespace s = true -> format_invariant s.
Proof.
  intros Hlen Hs. unfold format_invariant.
  rewrite (replace_groups_short s Hlen), (joined_groups_short s Hlen).
  repeat split.
  - now apply trimEnd_no_whitespace.
  - destruct s as [|c s]; [reflexivity|].
    now apply no_whitespace_cons in Hs.
  - now apply remove_spaces_no_whitespace.
  - now apply last_char_no_whitespace.
Qed.

Lemma format_invariant_holds :
  forall s, no_whitespace s = true -> format_invariant s.
Proof.
  induction s as [|c1|c1 c2|c1 c2 c3|c1 c2 c3 c4 rest IH] using string_ind4;
    intros Hs; try (apply format_invariant_short; [simpl; lia | exact Hs]).
  apply no_whitespace_cons in Hs as [W1 Hs].
  apply no_whitespace_cons in Hs as [W2 Hs].
  apply no_whitespace_cons in Hs as [W3 Hs].
  apply no_whitespace_cons in Hs as [W4 Hs].
  destruct (IH Hs) as (Htrim & Hfirst & Hrem & Hlast).
  unfold format_invariant.
  rewrite replace_groups_step by now apply not_whitespace_dot.
  rewrite joined_groups_step.
  rewrite !trimEnd_cons by assumption.
  rewrite trimEnd_space, Htrim.
  repeat split.
  - assumption.
  - cbn [remove_spaces].
    rewrite !not_whitespace_not_space by assumption.
    destruct (joined_groups rest) as [|c t] eqn:E.
    + now subst rest.
    + cbn [remove_spaces]. change (" " =? " ")%char with true.
      cbv beta iota. cbn [remove_spaces] in Hrem. now rewrite Hrem.
  - destruct (joined_groups rest) as [|c t] eqn:E.
    + simpl. intros Heq. inversion Heq; subst. discriminate W4.
    + exact Hlast.
Qed.

(** C10 (formatting).  For a string [s] without whitespace,
    [formatCardNumber s] is the groups of four characters of [s] (the
    last one shorter when the length is not a multiple of four) joined by
    single spaces; it has no leading and no trailing space, and deleting
    its spaces gives [s] back. *)
Theorem formatCardNumber_groups (s : string) :
  no_whitespace s = true ->
  formatCardNumber s = String.concat " " (groups4 s)
  /\ (forall t, formatCardNumber s <> String " " t)
  /\ (forall t, formatCardNumber s <> t ++ " ")
  /\ remove_spaces (formatCardNumber s) = s.
Proof.
  intros Hs.
  destruct (format_invariant_holds s Hs) as (Htrim & Hfirst & Hrem & Hlast).
  assert (Hfmt : formatCardNumber s = joined_groups s).
  { unfold formatCardNumber, trim. rewrite Htrim.
    destruct (joined_groups s) as [|c t]; [reflexivity|].
    simpl. now rewrite Hfirst. }
  rewrite Hfmt. repeat split.
  - intros t E. rewrite E in Hfirst. discriminate Hfirst.
  - intros t E. rewrite E in Hlast. apply Hlast, last_char_append_space.
  - exact Hrem.
Qed.

Lemma formatCardNumber_groups_witness :
  no_whitespace "41111111111111112" = true
  /\ formatCardNumber "41111111111111112" = "4111 1111 1111 1111 2"
  /\ remove_spaces (formatCardNumber "41111111111111112")
     = "41111111111111112".
Proof.
  destruct (formatCardNumber_groups "41111111111111112" eq_refl)
    as (Hfmt & _ & _ & Hrem).
  split; [reflexivity | split; [exact Hfmt | exact Hrem]].
Defined.

(** * The rest of the code *)

Lemma sample_env_unit_interval : unit_interval sample_env.
Proof.
  intros k d. cbn [sample_env floor_times Math_random_at].
  pose proof (Z.mod_pos_bound (Z.of_nat k * 7919 + 3) 1000 ltac:(lia)) as Hm.
  set (m := (Z.of_nat k * 7919 + 3) mod 1000) in *.
  split.
  - apply Z.div_pos; nia.
  - apply Z.div_lt_upper_bound; nia.
Qed.

(** ** The random helpers *)

Lemma append_empty_r (s : string) : s ++ "" = s.
Proof. induction s as [|c s IH]; simpl; [reflexivity | now rewrite IH]. Qed.

Lemma length_append (s t : string) :
  String.length (s ++ t) = (String.length s + String.length t)%nat.
Proof. induction s as [|c s IH]; simpl; [reflexivity | now rewrite IH]. Qed.

Lemma concat_empty_cons (s : string) (ss : list string) :
  String.concat "" (s :: ss) = s ++ String.concat "" ss.
Proof.
  destruct ss as [|t ss]; simpl; [now rewrite append_empty_r | reflexivity].
Qed.

Lemma join_digits (arr : list number) :
  Forall digit_number arr ->
  String.length (join "" arr) = List.length arr
  /\ forallb is_digit (list_ascii_of_string (join "" arr)) = true.
Proof.
  unfold join. induction 1 as [|x arr (d & -> & Hd) _ [IHlen IHdig]].
  - split; reflexivity.
  - cbn [map]. rewrite concat_empty_cons.
    destruct (toString_digit d Hd) as (c & -> & Hc & _).
    cbn [append String.length list_ascii_of_string forallb List.length].
    rewrite IHlen, Hc, IHdig. split; reflexivity.
Qed.

Lemma Array_from_draws (env : Env) (d : positive) :
  unit_interval env ->
  forall len k n,
    let r := Array_from len
               (fun _ => x <- Math_random env ;; ret (Num (floor_times env x d)))
               k n in
    snd r = (n + len)%nat
    /\ List.length (fst r) = len
    /\ Forall (fun x => exists v, x = Num v /\ 0 <= v < Z.pos d) (fst r).
Proof.
  intros Henv. induction len as [|len IH]; intros k n; cbn [Array_from].
  - unfold ret. cbn. repeat split; [lia | constructor].
  - unfold bind at 1. unfold bind at 1. unfold Math_random, ret.
    unfold bind. specialize (IH (S k) (S n)). cbv zeta in IH.
    destruct (Array_from len _ (S k) (S n)) as [xs n'] eqn:E.
    cbn [fst snd] in *. destruct IH as (Hn & Hlen & Hall).
    repeat split.
    + lia.
    + cbn. now rewrite Hlen.
    + constructor; [|assumption].
      eexists. split; [reflexivity | apply Henv].
Qed.

Lemma generateRandomDigits_run (env : Env) (length : number) (n : nat) :
  unit_interval env ->
  String.length (fst (generateRandomDigits env length n)) = ToLength length
  /\ forallb is_digit
       (list_ascii_of_string (fst (generateRandomDigits env length n))) = true
  /\ snd (generateRandomDigits env length n) = (n + ToLength length)%nat.
Proof.
  intros Henv. unfold generateRandomDigits, bind, ret.
  pose proof (Array_from_draws env 10 Henv (ToLength length) 0%nat n) as H.
  cbv zeta in H.
  destruct (Array_from (ToLength length) _ 0%nat n) as [arr n'] eqn:E.
  cbn [fst snd] in *. destruct H as (Hn & Hlen & Hall).
  assert (Hdig : Forall digit_number arr).
  { eapply Forall_impl; [|exact Hall].
    intros x (v & -> & Hv). exists v. split; [reflexivity | lia]. }
  destruct (join_digits arr Hdig) as [Hl Hd].
  rewrite Hl, Hlen. repeat split; assumption.
Qed.

(** [generateRandomDigits(length)], for a length below 2^32 (where
    [Array.from] does not throw): as many decimal digits as [length] asks
    for (none for NaN or a negative number), one call of [Math.random]
    for each. *)
Theorem generateRandomDigits_digits (env : Env) (length : number) (n : nat) :
  unit_interval env ->
  array_length length ->
  String.length (fst (generateRandomDigits env length n)) = ToLength length
  /\ forallb is_digit
       (list_ascii_of_string (fst (generateRandomDigits env length n))) = true
  /\ snd (generateRandomDigits env length n) = (n + ToLength length)%nat.
Proof. intros Henv Hlength. now apply generateRandomDigits_run. Qed.

Lemma generateRandomDigits_digits_witness :
  array_length (Num 5)
  /\ fst (generateRandomDigits sample_env (Num 5) 0%nat) = "09876"
  /\ String.length (fst (generateRandomDigits sample_env (Num 5) 0%nat)) = 5%nat
  /\ forallb is_digit
       (list_ascii_of_string (fst (generateRandomDigits sample_env (Num 5) 0%nat)))
     = true
  /\ snd (generateRandomDigits sample_env (Num 5) 0%nat) = 5%nat.
Proof.
  assert (Hlength : array_length (Num 5)) by reflexivity.
  split; [exact Hlength | split; [reflexivity|]].
  exact (generateRandomDigits_digits sample_env (Num 5) 0%nat
           sample_env_unit_interval Hlength).
Defined.

(** [generateRandomCVV()]: exactly three decimal digits, from three calls
    of [Math.random]. *)
Theorem generateRandomCVV_three_digits (env : Env) (n : nat) :
  unit_interval env ->
  String.length (fst (generateRandomCVV env n)) = 3%nat
  /\ forallb is_digit (list_ascii_of_string (fst (generateRandomCVV env n)))
     = true
  /\ snd (generateRandomCVV env n) = (n + 3)%nat.
Proof.
  intros Henv. unfold generateRandomCVV.
  exact (generateRandomDigits_run env (Num 3) n Henv).
Qed.

Lemma generateRandomCVV_three_digits_witness :
  fst (generateRandomCVV sample_env 7%nat) = "432"
  /\ String.length (fst (generateRandomCVV sample_env 7%nat)) = 3%nat.
Proof.
  split; [reflexivity|].
  apply (generateRandomCVV_three_digits sample_env 7%nat
           sample_env_unit_interval).
Defined.

Example months_options :
  App.months
  = ["01"; "02"; "03"; "04"; "05"; "06"; "07"; "08"; "09"; "10"; "11"; "12"].
Proof. reflexivity. Qed.

Lemma months_length : Forall (fun m => String.length m = 2%nat) App.months.
Proof. rewrite months_options. repeat constructor. Qed.

Lemma generateRandomMonth_run (env : Env) (n : nat) :
  unit_interval env ->
  (exists m, 1 <= m <= 12
             /\ fst (generateRandomMonth env n)
                = padStart 2 "0" (toString (Num m)))
  /\ In (fst (generateRandomMonth env n)) App.months
  /\ String.length (fst (generateRandomMonth env n)) = 2%nat
  /\ snd (generateRandomMonth env n) = S n.
Proof.
  intros Henv. unfold generateRandomMonth, bind, Math_random, ret.
  cbn [fst snd add].
  pose proof (Henv n 12%positive) as Hd.
  set (d := floor_times env (Math_random_at env n) 12) in *.
  assert (Hin : In (padStart 2 "0" (toString (Num (d + 1)))) App.months).
  { unfold App.months, App.Array_from_index. apply in_map_iff.
    exists (Z.to_nat d). split.
    - cbn [add]. now rewrite Z2Nat.id by lia.
    - apply in_seq. lia. }
  repeat split.
  - exists (d + 1). split; [lia | reflexivity].
  - exact Hin.
  - pose proof months_length as Hlen. rewrite Forall_forall in Hlen.
    now apply Hlen.
Qed.

(** [generateRandomMonth()]: a month between 1 and 12 written with two
    digits, which is one of the options of the month [select]; one call of
    [Math.random]. *)
Theorem generateRandomMonth_in_months (env : Env) (n : nat) :
  unit_interval env ->
  (exists m, 1 <= m <= 12
             /\ fst (generateRandomMonth env n)
                = padStart 2 "0" (toString (Num m)))
  /\ In (fst (generateRandomMonth env n)) App.months
  /\ String.length (fst (generateRandomMonth env n)) = 2%nat
  /\ snd (generateRandomMonth env n) = S n.
Proof. intros Henv. now apply generateRandomMonth_run. Qed.

Lemma generateRandomMonth_in_months_witness :
  fst (generateRandomMonth sample_env 4%nat) = "09"
  /\ In (fst (generateRandomMonth sample_env 4%nat)) App.months.
Proof.
  split; [reflexivity|].
  apply (generateRandomMonth_in_months sample_env 4%nat
           sample_env_unit_interval).
Defined.

Lemma years_first_five (env : Env) :
  firstn 5 (App.years env)
  = map (fun i => toString (add (Num (getFullYear env)) (Num (Z.of_nat i))))
        (seq 0 5).
Proof. reflexivity. Qed.

Lemma generateRandomYear_run (env : Env) (n : nat) :
  unit_interval env ->
  (exists d, 0 <= d <= 4
             /\ fst (generateRandomYear env n)
                = toString (Num (getFullYear env + d)))
  /\ In (fst (generateRandomYear env n)) (firstn 5 (App.years env))
  /\ snd (generateRandomYear env n) = S n.
Proof.
  intros Henv. unfold generateRandomYear, bind, Math_random, ret.
  cbn [fst snd add].
  pose proof (Henv n 5%positive) as Hd.
  set (d := floor_times env (Math_random_at env n) 5) in *.
  repeat split.
  - exists d. split; [lia | reflexivity].
  - rewrite years_first_five. apply in_map_iff.
    exists (Z.to_nat d). split.
    + cbn [add]. now rewrite Z2Nat.id by lia.
    + apply in_seq. lia.
Qed.

(** [generateRandomYear()]: the current year plus 0 to 4, which is one of
    the first five of the sixteen options of the year [select]; one call
    of [Math.random]. *)
Theorem generateRandomYear_range (env : Env) (n : nat) :
  unit_interval env ->
  (exists d, 0 <= d <= 4
             /\ fst (generateRandomYear env n)
                = toString (Num (getFullYear env + d)))
  /\ In (fst (generateRandomYear env n)) (firstn 5 (App.years env))
  /\ snd (generateRandomYear env n) = S n.
Proof. intros Henv. now apply generateRandomYear_run. Qed.

Lemma generateRandomYear_range_witness :
  fst (generateRandomYear sample_env 4%nat) = "2029"
  /\ In (fst (generateRandomYear sample_env 4%nat))
        (firstn 5 (App.years sample_env)).
Proof.
  split; [reflexivity|].
  apply (generateRandomYear_range sample_env 4%nat sample_env_unit_interval).
Defined.

(** ** The check digit as the code computes it *)

(** On digits, the appended digit completes the sum of the loop to a
    multiple of ten. *)
Lemma generateLuhn_appends (p : string) :
  forallb is_digit (list_ascii_of_string p) = true ->
  exists n c,
    luhn_sum p = Num n
    /\ generateLuhn p = p ++ String c EmptyString
    /\ is_digit c = true
    /\ (n + (code c - 48)) mod 10 = 0.
Proof.
  intros Hall. destruct (luhn_sum_digits p Hall) as (n & Hn & Hpos).
  unfold generateLuhn. rewrite Hn, (checkDigit_Num n).
  pose proof (Z.mod_pos_bound (10 - n mod 10) 10 ltac:(lia)) as Hb.
  destruct (toString_digit ((10 - n mod 10) mod 10)) as (c & Hc & Hd & Hv);
    [lia|].
  exists n, c. rewrite Hc, Hv. repeat split; try assumption.
  rewrite Z.add_mod_idemp_r by lia.
  pose proof (Z.mod_pos_bound n 10 ltac:(lia)) as Hn10.
  rewrite (Z.div_mod n 10) at 1 by lia.
  replace (10 * (n / 10) + n mod 10 + (10 - n mod 10))
    with ((n / 10 + 1) * 10) by lia.
  apply Z.mod_mul. lia.
Qed.

(** [generateLuhn]: on a string of digits the digit appended makes the
    sum over the string, with the digits at the even positions from the
    right doubled, a multiple of ten. *)
Theorem generateLuhn_completes_even_sum (p : string) :
  forallb is_digit (list_ascii_of_string p) = true ->
  luhn_sum p = Num (position_sum Nat.even 1 (digits_from_right p))
  /\ exists c,
       generateLuhn p = p ++ String c EmptyString
       /\ is_digit c = true
       /\ (position_sum Nat.even 1 (digits_from_right p) + (code c - 48))
          mod 10 = 0.
Proof.
  intros Hall. split; [now apply luhn_sum_even_positions|].
  destruct (generateLuhn_appends p Hall) as (n & c & Hn & Hg & Hc & Hm).
  rewrite (luhn_sum_even_positions p Hall) in Hn. inversion Hn; subst n.
  now exists c.
Qed.

Lemma generateLuhn_completes_even_sum_witness :
  luhn_sum "7992739871" = Num 56
  /\ exists c,
       generateLuhn "7992739871" = "7992739871" ++ String c EmptyString
       /\ is_digit c = true
       /\ (56 + (code c - 48)) mod 10 = 0.
Proof.
  apply (generateLuhn_completes_even_sum "7992739871"). reflexivity.
Defined.

(** ** The inputs of the page *)

Lemma remove_non_digits_digits (value : string) :
  forallb is_digit (list_ascii_of_string (App.remove_non_digits value)) = true.
Proof.
  induction value as [|c value IH]; [reflexivity|].
  cbn [App.remove_non_digits]. destruct (is_digit c) eqn:Hc; [|assumption].
  cbn. now rewrite Hc.
Qed.

Lemma remove_non_digits_id (value : string) :
  forallb is_digit (list_ascii_of_string value) = true ->
  App.remove_non_digits value = value.
Proof.
  induction value as [|c value IH]; [reflexivity|].
  cbn. intros H. apply andb_true_iff in H as [Hc Hv].
  now rewrite Hc, (IH Hv).
Qed.

Lemma take_digits (n : nat) :
  forall s,
    forallb is_digit (list_ascii_of_string s) = true ->
    forallb is_digit (list_ascii_of_string (take n s)) = true.
Proof.
  induction n as [|n IH]; intros [|c s] H; try reflexivity.
  cbn in *. apply andb_true_iff in H as [Hc Hs].
  now rewrite Hc, (IH s Hs).
Qed.

Lemma length_take_le (n : nat) :
  forall s, (String.length (take n s) <= n)%nat.
Proof.
  induction n as [|n IH]; intros [|c s]; cbn; try lia.
  specialize (IH s). lia.
Qed.

Lemma take_all (n : nat) :
  forall s, (String.length s <= n)%nat -> take n s = s.
Proof.
  induction n as [|n IH]; intros [|c s] H; cbn in *; try reflexivity; try lia.
  f_equal. apply IH. lia.
Qed.

Lemma sanitized (n : nat) (value : string) :
  let v := App.slice0 n (App.remove_non_digits value) in
  (String.length v <= n)%nat
  /\ forallb is_digit (list_ascii_of_string v) = true
  /\ App.slice0 n (App.remove_non_digits v) = v.
Proof.
  cbv zeta. unfold App.slice0.
  pose proof (remove_non_digits_digits value) as Hd.
  pose proof (take_digits n _ Hd) as Ht.
  pose proof (length_take_le n (App.remove_non_digits value)) as Hl.
  repeat split; try assumption.
  rewrite (remove_non_digits_id _ Ht). now apply take_all.
Qed.

(** The BIN input: whatever is typed or pasted, the stored BIN is at most
    six decimal digits; a value that already is one is stored as it is,
    and storing the stored value again changes nothing.  No other field
    of the state changes. *)
Theorem onChangeBin_sanitizes (value : string) (st : App.State) :
  let st' := App.onChangeBin value st in
  (String.length (App.bin st') <= 6)%nat
  /\ forallb is_digit (list_ascii_of_string (App.bin st')) = true
  /\ App.onChangeBin (App.bin st') st' = st'
  /\ (forallb is_digit (list_ascii_of_string value) = true ->
      (String.length value <= 6)%nat ->
      App.bin st' = value)
  /\ st' = App.setBin (App.bin st') st.
Proof.
  cbv zeta. unfold App.onChangeBin, App.setBin.
  cbn [App.bin App.error App.month App.year App.cvv App.quantity
       App.generatedCards].
  destruct (sanitized 6 value) as (Hl & Hd & Hi). cbv zeta in *.
  repeat split; try assumption.
  - now rewrite Hi.
  - intros Hv Hlen. unfold App.slice0.
    rewrite (remove_non_digits_id _ Hv). now apply take_all.
Qed.

(** ** The card generator *)

Lemma length_le_6_not_14 (s : string) :
  (String.length s <= 6)%nat -> (String.length s =? 14)%nat = false.
Proof. intros H. apply Nat.eqb_neq. lia. Qed.

Lemma page_invariant_initial (env : Env) : App.page_invariant env App.initial.
Proof.
  unfold App.page_invariant. cbn.
  repeat split; try lia; auto.
Qed.

Lemma generateCards_rejects_short_bin (env : Env) (st : App.State) (n : nat) :
  (String.length (App.bin st) <= 6)%nat ->
  App.generateCards env st n
  = (App.setError (Some "Please enter a valid 6-digit BIN first") st, n).
Proof.
  intros H. unfold App.generateCards.
  now rewrite (length_le_6_not_14 _ H).
Qed.

Lemma page_invariant_handle (env : Env) (e : App.Event) (st : App.State)
    (n : nat) :
  App.enabled env e ->
  App.page_invariant env st ->
  App.page_invariant env (fst (App.handle env e st n)).
Proof.
  intros He (Hbl & Hbd & Hcl & Hcd & Hm & Hy & Hq & Hg).
  destruct e; cbn [App.handle App.enabled] in *;
    try (unfold ret; cbn [fst]).
  - destruct (sanitized 6 value) as (Hl & Hd & _).
    unfold App.page_invariant, App.onChangeBin. cbn. tauto.
  - unfold App.page_invariant. cbn. tauto.
  - unfold App.page_invariant. cbn. tauto.
  - destruct (sanitized 3 value) as (Hl & Hd & _).
    unfold App.page_invariant, App.onChangeCvv. cbn. tauto.
  - unfold App.page_invariant. cbn. tauto.
  - rewrite (generateCards_rejects_short_bin env st n Hbl).
    unfold App.page_invariant. cbn. tauto.
  - unfold App.handleSubmit_start.
    destruct (negb _); unfold App.page_invariant; cbn; tauto.
  - unfold App.page_invariant. cbn. tauto.
Qed.

Lemma reachable_page_invariant (env : Env) (st : App.State) :
  App.reachable env st -> App.page_invariant env st.
Proof.
  induction 1 as [|st e n Hreach IH He].
  - apply page_invariant_initial.
  - now apply page_invariant_handle.
Qed.

(** In every state the page can reach the BIN has at most six digits, so
    the generator's test [bin.length !== 14] always fails: no card is ever
    generated, and each click on "Generate" only sets the error
    "Please enter a valid 6-digit BIN first", without calling
    [Math.random]. *)
Theorem generator_never_generates (env : Env) (st : App.State) :
  App.reachable env st ->
  App.page_invariant env st
  /\ forall n,
       App.handle env App.ClickGenerate st n
       = (App.setError (Some "Please enter a valid 6-digit BIN first") st, n).
Proof.
  intros Hreach. pose proof (reachable_page_invariant env st Hreach) as Hinv.
  split; [exact Hinv|].
  intros n. cbn [App.handle].
  apply generateCards_rejects_short_bin. apply Hinv.
Qed.

Lemma generator_never_generates_witness :
  App.generatedCards
    (fst (App.handle sample_env App.ClickGenerate
            (fst (App.handle sample_env (App.ChangeBin "4111 1111 1111 1111")
                    App.initial 0%nat)) 0%nat))
  = [].
Proof.
  set (st := fst (App.handle sample_env (App.ChangeBin "4111 1111 1111 1111")
                    App.initial 0%nat)).
  assert (Hreach : App.reachable sample_env st).
  { apply App.reachable_handle; [apply App.reachable_initial | exact I]. }
  destruct (generator_never_generates sample_env st Hreach) as [_ Hgen].
  now rewrite Hgen.
Defined.

Lemma single_digit_string (s : string) :
  String.length s = 1%nat ->
  forallb is_digit (list_ascii_of_string s) = true ->
  exists d, s = String d EmptyString /\ is_digit d = true.
Proof.
  destruct s as [|d [|e s]]; cbn; intros Hl Hd; try discriminate.
  exists d. split; [reflexivity|]. now rewrite andb_true_r in Hd.
Qed.

Lemma digits_append (p q : string) :
  forallb is_digit (list_ascii_of_string p) = true ->
  forallb is_digit (list_ascii_of_string q) = true ->
  forallb is_digit (list_ascii_of_string (p ++ q)) = true.
Proof.
  intros Hp Hq. now rewrite list_ascii_append, forallb_app, Hp, Hq.
Qed.

Lemma append_assoc (s t u : string) : (s ++ t) ++ u = s ++ t ++ u.
Proof. induction s as [|c s IH]; cbn; [reflexivity | now rewrite IH]. Qed.

Lemma make_card_shape (env : Env) (st : App.State) (n : nat) :
  unit_interval env ->
  String.length (App.bin st) = 14%nat ->
  forallb is_digit (list_ascii_of_string (App.bin st)) = true ->
  App.card_shape env st (fst (App.make_card env st n))
  /\ snd (App.make_card env st n) = (n + draws_per_card st)%nat.
Proof.
  intros Henv Hlen Hbin. unfold App.make_card, draws_per_card. rewrite Hlen.
  change (sub (Num 15) (Num (Z.of_nat 14))) with (Num 1).
  unfold bind.
  pose proof (generateRandomDigits_run env (Num 1) n Henv) as (Hdl & Hdd & Hdn).
  destruct (generateRandomDigits env (Num 1) n) as [digits n1].
  cbn [fst snd ToLength] in Hdl, Hdd, Hdn. cbv beta iota.
  change (Z.to_nat 1) with 1%nat in Hdl, Hdn.
  destruct (single_digit_string digits Hdl Hdd) as (d & -> & Hd).
  destruct (generateLuhn_appends (App.bin st ++ String d EmptyString))
    as (s & k & _ & Hluhn & Hk & _).
  { apply digits_append; [assumption | cbn; now rewrite Hd]. }
  assert (Hluhn' : generateLuhn (App.bin st ++ String d EmptyString)
                   = App.bin st ++ String d (String k EmptyString)).
  { rewrite Hluhn, append_assoc. reflexivity. }
  clear Hluhn.
  assert (Hmonth :
            let r := App.or_else (App.month st) (generateRandomMonth env) n1 in
            match App.month st with
            | EmptyString => In (fst r) App.months /\ snd r = S n1
            | String _ _ => fst r = App.month st /\ snd r = n1
            end).
  { destruct (App.month st); cbn [App.or_else]; [|now split].
    pose proof (generateRandomMonth_run env n1 Henv) as (_ & Hin & _ & Hs).
    now split. }
  cbv zeta in Hmonth.
  destruct (App.or_else (App.month st) (generateRandomMonth env) n1)
    as [m n2].
  cbn [fst snd] in Hmonth. cbv beta iota.
  assert (Hyear :
            let r := App.or_else (App.year st) (generateRandomYear env) n2 in
            match App.year st with
            | EmptyString =>
                In (fst r) (firstn 5 (App.years env)) /\ snd r = S n2
            | String _ _ => fst r = App.year st /\ snd r = n2
            end).
  { destruct (App.year st); cbn [App.or_else]; [|now split].
    pose proof (generateRandomYear_run env n2 Henv) as (_ & Hin & Hs).
    now split. }
  cbv zeta in Hyear.
  destruct (App.or_else (App.year st) (generateRandomYear env) n2)
    as [y n3].
  cbn [fst snd] in Hyear. cbv beta iota.
  assert (Hcvv :
            let r := App.or_else (App.cvv st) (generateRandomCVV env) n3 in
            match App.cvv st with
            | EmptyString =>
                (String.length (fst r) = 3%nat
                 /\ forallb is_digit (list_ascii_of_string (fst r)) = true)
                /\ snd r = (n3 + 3)%nat
            | String _ _ => fst r = App.cvv st /\ snd r = n3
            end).
  { destruct (App.cvv st); cbn [App.or_else]; [|now split].
    pose proof (generateRandomDigits_run env (Num 3) n3 Henv) as (Hl & Hd3 & Hs).
    unfold generateRandomCVV. now repeat split. }
  cbv zeta in Hcvv.
  destruct (App.or_else (App.cvv st) (generateRandomCVV env) n3)
    as [c n4].
  cbn [fst snd] in Hcvv. cbv beta iota. unfold ret. cbn [fst snd].
  split.
  - exists d, k, m, y, c. repeat split; try assumption.
    + destruct (App.month st); tauto.
    + destruct (App.year st); tauto.
    + destruct (App.cvv st); tauto.
  - destruct (App.month st), (App.year st), (App.cvv st); lia.
Qed.

Lemma card_loop_shape (env : Env) (st : App.State) :
  unit_interval env ->
  String.length (App.bin st) = 14%nat ->
  forallb is_digit (list_ascii_of_string (App.bin st)) = true ->
  forall count cards n,
    Forall (App.card_shape env st) cards ->
    Forall (App.card_shape env st) (fst (App.card_loop env st count cards n))
    /\ List.length (fst (App.card_loop env st count cards n))
       = (List.length cards + count)%nat
    /\ snd (App.card_loop env st count cards n)
       = (n + count * draws_per_card st)%nat.
Proof.
  intros Henv Hlen Hbin.
  induction count as [|count IH]; intros cards n Hcards; cbn [App.card_loop].
  - unfold ret. cbn [fst snd]. repeat split; [assumption | lia | lia].
  - unfold bind.
    destruct (make_card_shape env st n Henv Hlen Hbin) as [Hshape Hn].
    destruct (App.make_card env st n) as [card n1]. cbn [fst snd] in *.
    destruct (IH (cards ++ [card])%list n1) as (Hall & Hl & Hs).
    { apply Forall_app. split; [assumption | now constructor]. }
    repeat split; [assumption | |].
    + rewrite Hl, length_app. cbn. lia.
    + rewrite Hs, Hn. lia.
Qed.

(** [generateCards] past its two tests (a BIN of fourteen digits, which
    the page's own input never stores, and a CVV empty or of length
    three): it replaces [generatedCards] by [quantity] lines, each the
    BIN, one random digit and the digit [generateLuhn] appends to these
    fifteen, then "|", the month, "|", the year, "|" and the CVV, where an
    empty choice is drawn at random; nothing else of the state changes
    (an error shown before stays), and each card takes the calls of
    [Math.random] that [draws_per_card] counts. *)
Theorem generateCards_cards (env : Env) (st : App.State) (n : nat) :
  unit_interval env ->
  String.length (App.bin st) = 14%nat ->
  forallb is_digit (list_ascii_of_string (App.bin st)) = true ->
  App.cvv st = "" \/ String.length (App.cvv st) = 3%nat ->
  exists cards,
    App.generateCards env st n
    = (App.setGeneratedCards cards st,
       (n + App.quantity st * draws_per_card st)%nat)
    /\ List.length cards = App.quantity st
    /\ Forall (App.card_shape env st) cards.
Proof.
  intros Henv Hlen Hbin Hcvv. unfold App.generateCards.
  rewrite Hlen. cbn [Nat.eqb negb].
  assert (Hguard : negb (App.cvv st =? "")%string
                   && negb (String.length (App.cvv st) =? 3)%nat = false).
  { destruct Hcvv as [-> | ->]; [reflexivity|].
    cbn. apply andb_false_r. }
  rewrite Hguard. unfold bind.
  destruct (card_loop_shape env st Henv Hlen Hbin (App.quantity st) [] n)
    as (Hall & Hl & Hs); [constructor|].
  destruct (App.card_loop env st (App.quantity st) [] n) as [cards n1].
  cbn [fst snd] in *. exists cards. unfold ret. subst n1.
  repeat split; assumption.
Qed.

Lemma generateCards_cards_witness :
  App.generatedCards
    (fst (App.generateCards sample_env
            (App.setQuantity 2
               (App.setMonth "07" (App.setBin "12345678901234" App.initial)))
            0%nat))
  = ["1234567890123407|07|2030|876"; "1234567890123452|07|2028|432"]
  /\ Forall (App.card_shape sample_env
               (App.setQuantity 2
                  (App.setMonth "07" (App.setBin "12345678901234" App.initial))))
            ["1234567890123407|07|2030|876"; "1234567890123452|07|2028|432"].
Proof.
  destruct (generateCards_cards sample_env
              (App.setQuantity 2
                 (App.setMonth "07" (App.setBin "12345678901234" App.initial)))
              0%nat sample_env_unit_interval eq_refl eq_refl
              (or_introl eq_refl))
    as (cards & Heq & _ & Hall).
  assert (Hcards : cards
                   = ["1234567890123407|07|2030|876";
                      "1234567890123452|07|2028|432"]).
  { apply (f_equal (fun r => App.generatedCards (fst r))) in Heq.
    cbn [fst App.generatedCards App.setGeneratedCards] in Heq.
    rewrite <- Heq. vm_compute. reflexivity. }
  rewrite Hcards in Hall.
  split; [reflexivity | exact Hall].
Defined.

(** ** More on [slowAES.decrypt] *)

Lemma ToInt32_range (x : number) : int32 (ToInt32 x).
Proof.
  unfold int32. destruct x as [z|]; cbn [ToInt32].
  - pose proof (Z.mod_pos_bound (z + 2 ^ 31) (2 ^ 32) ltac:(lia)). lia.
  - lia.
Qed.

Lemma bitxor_int32_number (x y : number) : int32_number (bitxor x y).
Proof.
  unfold bitxor. eexists. split; [reflexivity|].
  apply lxor_int32; apply ToInt32_range.
Qed.

Lemma lxor_cancel (z a f : Z) :
  Z.lxor (Z.lxor (Z.lxor (Z.lxor z a) f) a) f = z.
Proof.
  apply Z.bits_inj'. intros n _. rewrite !Z.lxor_spec.
  now destruct (Z.testbit z n), (Z.testbit a n), (Z.testbit f n).
Qed.

(** Applying the two keys twice gives the 32-bit integer back. *)
Lemma bitxor_twice (x ka kf : number) :
  bitxor (bitxor (bitxor (bitxor x ka) kf) ka) kf = Num (ToInt32 x).
Proof.
  unfold bitxor at 1 2 3. f_equal.
  pose proof (ToInt32_range x) as Hx.
  pose proof (ToInt32_range ka) as Ha.
  pose proof (ToInt32_range kf) as Hf.
  unfold bitxor.
  rewrite (ToInt32_int32 (Z.lxor (ToInt32 x) (ToInt32 ka)))
    by now apply lxor_int32.
  rewrite (ToInt32_int32 (Z.lxor (Z.lxor (ToInt32 x) (ToInt32 ka)) (ToInt32 kf)))
    by (apply lxor_int32; [now apply lxor_int32 | assumption]).
  rewrite (ToInt32_int32
             (Z.lxor (Z.lxor (Z.lxor (ToInt32 x) (ToInt32 ka)) (ToInt32 kf))
                     (ToInt32 ka)))
    by (repeat apply lxor_int32; assumption).
  apply lxor_cancel.
Qed.

Lemma map_index_twice {A : Type} (g : A -> nat -> A) (h : A -> A) :
  (forall x i, g (g x i) i = h x) ->
  forall c k, slowAES.map_index g k (slowAES.map_index g k c) = map h c.
Proof.
  intros Hg. induction c as [|x c IH]; intros k; cbn; [reflexivity|].
  now rewrite Hg, IH.
Qed.

Lemma decrypt_twice (c : list number) (b b' : number) (a f : list number) :
  slowAES.decrypt (slowAES.decrypt c b a f) b' a f
  = map (fun x => Num (ToInt32 x)) c.
Proof.
  unfold slowAES.decrypt. apply map_index_twice.
  intros x i. apply bitxor_twice.
Qed.

Lemma map_index_length {A B : Type} (g : A -> nat -> B) :
  forall c k, List.length (slowAES.map_index g k c) = List.length c.
Proof. induction c as [|x c IH]; intros k; cbn; [reflexivity | now rewrite IH]. Qed.

Lemma map_index_Forall {A B : Type} (g : A -> nat -> B) (P : B -> Prop) :
  (forall x i, P (g x i)) ->
  forall c k, Forall P (slowAES.map_index g k c).
Proof.
  intros Hg. induction c as [|x c IH]; intros k; cbn; constructor; auto.
Qed.

(** [slowAES.decrypt]: the result has the length of [c], and every
    element of it is an integer of the signed 32-bit range, never NaN,
    whatever the arrays hold. *)
Theorem decrypt_int32 (c : list number) (b : number) (a f : list number) :
  List.length (slowAES.decrypt c b a f) = List.length c
  /\ Forall int32_number (slowAES.decrypt c b a f).
Proof.
  unfold slowAES.decrypt. split.
  - apply map_index_length.
  - apply map_index_Forall. intros x i. apply bitxor_int32_number.
Qed.

(** [slowAES.decrypt] is its own inverse: on an array of 32-bit integers,
    decrypting the result again with the same two key arrays gives the
    array back. *)
Theorem decrypt_involutive (c : list number) (b b' : number)
    (a f : list number) :
  Forall int32_number c ->
  slowAES.decrypt (slowAES.decrypt c b a f) b' a f = c.
Proof.
  intros Hc. rewrite decrypt_twice.
  induction Hc as [|x c (z & -> & Hz) _ IH]; [reflexivity|].
  cbn [map]. rewrite IH. f_equal. f_equal. now apply ToInt32_int32.
Qed.

Lemma decrypt_involutive_witness :
  Forall int32_number [Num 12; Num (-7); Num 2147483647]
  /\ slowAES.decrypt
       (slowAES.decrypt [Num 12; Num (-7); Num 2147483647] (Num 1)
          [Num 6; NaN] [Num 255])
       (Num 2) [Num 6; NaN] [Num 255]
     = [Num 12; Num (-7); Num 2147483647].
Proof.
  assert (H : Forall int32_number [Num 12; Num (-7); Num 2147483647]).
  { repeat constructor; eexists; (split; [reflexivity | unfold int32; lia]). }
  split; [exact H|].
  apply (decrypt_involutive [Num 12; Num (-7); Num 2147483647]
           (Num 1) (Num 2) [Num 6; NaN] [Num 255] H).
Defined.

(** ** More on [formatCardNumber] *)

Lemma strip_cons (c : ascii) (s : string) :
  strip_whitespace (String c s)
  = if is_whitespace c then strip_whitespace s
    else String c (strip_whitespace s).
Proof. reflexivity. Qed.

Lemma strip_replace_groups :
  forall n s, (String.length s <= n)%nat ->
              strip_whitespace (replace_groups s) = strip_whitespace s.
Proof.
  induction n as [|n IH]; intros s Hn.
  - destruct s; [reflexivity | cbn in Hn; lia].
  - destruct s as [|c1 s1]; [reflexivity|].
    assert (Hrec : strip_whitespace (String c1 (replace_groups s1))
                   = strip_whitespace (String c1 s1)).
    { cbn [strip_whitespace]. rewrite (IH s1) by (cbn in Hn; lia).
      reflexivity. }
    destruct s1 as [|c2 [|c3 [|c4 rest]]]; try exact Hrec.
    cbn [replace_groups].
    destruct (dot c1 && dot c2 && dot c3 && dot c4); [|exact Hrec].
    cbn [strip_whitespace].
    change (is_whitespace " ") with true. cbv iota.
    rewrite (IH rest) by (cbn in Hn; lia).
    reflexivity.
Qed.

Lemma strip_trimEnd (s : string) :
  strip_whitespace (trimEnd s) = strip_whitespace s.
Proof.
  induction s as [|c s IH]; [reflexivity|].
  cbn [trimEnd]. destruct (trimEnd s) as [|d t] eqn:E.
  - cbn [strip_whitespace] in *. rewrite <- IH.
    destruct (is_whitespace c) eqn:Ec; [reflexivity|].
    cbn [strip_whitespace]. now rewrite Ec.
  - now rewrite (strip_cons c (String d t)), (strip_cons c s), IH.
Qed.

Lemma strip_trimStart (s : string) :
  strip_whitespace (trimStart s) = strip_whitespace s.
Proof.
  induction s as [|c s IH]; [reflexivity|].
  cbn [trimStart strip_whitespace].
  destruct (is_whitespace c) eqn:E; [assumption|].
  cbn [strip_whitespace]. now rewrite E.
Qed.

Lemma trimStart_first (s : string) :
  match trimStart s with
  | EmptyString => True
  | String c _ => is_whitespace c = false
  end.
Proof.
  induction s as [|c s IH]; [exact I|].
  cbn [trimStart]. destruct (is_whitespace c) eqn:E; assumption.
Qed.

Lemma last_char_cons (c d : ascii) (t : string) :
  last_char (String c (String d t)) = last_char (String d t).
Proof. reflexivity. Qed.

Lemma trimEnd_last (s : string) :
  forall c, last_char (trimEnd s) = Some c -> is_whitespace c = false.
Proof.
  induction s as [|a s IH]; intros c; [discriminate|].
  cbn [trimEnd]. destruct (trimEnd s) as [|d t] eqn:E.
  - destruct (is_whitespace a) eqn:Ea; [discriminate|].
    cbn. intros H. now inversion H; subst.
  - rewrite last_char_cons. apply IH.
Qed.

Lemma trimStart_last (s : string) :
  forall c, last_char (trimStart s) = Some c -> last_char s = Some c.
Proof.
  induction s as [|a s IH]; intros c H; [assumption|].
  cbn [trimStart] in H. destruct (is_whitespace a); [|assumption].
  specialize (IH c H). destruct s as [|d t]; [discriminate|].
  now rewrite last_char_cons.
Qed.

(** [formatCardNumber] on any string: the result neither begins nor ends
    with a whitespace character, and it holds the characters of the input
    that are not whitespace, all of them and in their order: formatting
    only adds and removes whitespace. *)
Theorem formatCardNumber_keeps_characters (s : string) :
  strip_whitespace (formatCardNumber s) = strip_whitespace s
  /\ match formatCardNumber s with
     | EmptyString => True
     | String c _ => is_whitespace c = false
     end
  /\ (forall c, last_char (formatCardNumber s) = Some c ->
                is_whitespace c = false).
Proof.
  unfold formatCardNumber, trim. repeat split.
  - rewrite strip_trimStart, strip_trimEnd.
    now apply (strip_replace_groups (String.length s)).
  - apply trimStart_first.
  - intros c H. apply trimStart_last in H. now apply trimEnd_last in H.
Qed.

Lemma formatCardNumber_joined (s : string) :
  no_whitespace s = true -> formatCardNumber s = joined_groups s.
Proof.
  intros Hs.
  destruct (format_invariant_holds s Hs) as (Htrim & Hfirst & _ & _).
  unfold formatCardNumber, trim. rewrite Htrim.
  destruct (joined_groups s) as [|c t]; [reflexivity|].
  cbn [trimStart]. now rewrite Hfirst.
Qed.

Lemma joined_groups_length :
  forall s,
    String.length (joined_groups s)
    = (String.length s + (String.length s - 1) / 4)%nat.
Proof.
  induction s as [|c1|c1 c2|c1 c2 c3|c1 c2 c3 c4 rest IH] using string_ind4;
    try reflexivity.
  rewrite joined_groups_step. cbn [String.length].
  set (L := String.length rest) in *.
  destruct (joined_groups rest) as [|c t] eqn:E.
  - cbn [String.length] in *.
    assert (L = 0)%nat as -> by lia. reflexivity.
  - cbn [String.length] in *.
    assert (HL : (1 <= L)%nat).
    { destruct L; [cbn in IH; discriminate | lia]. }
    replace (S (S (S (S L))) - 1)%nat with (L - 1 + 1 * 4)%nat by lia.
    rewrite Nat.div_add by lia. lia.
Qed.

(** [formatCardNumber] on a string of [n] characters without whitespace
    gives [n] characters and one space after each complete group of four
    that is followed by more: [n + (n - 1) / 4] characters in all (19 for
    a card number of 16 digits). *)
Theorem formatCardNumber_length (s : string) :
  no_whitespace s = true ->
  String.length (formatCardNumber s)
  = (String.length s + (String.length s - 1) / 4)%nat.
Proof.
  intros Hs. rewrite (formatCardNumber_joined s Hs).
  apply joined_groups_length.
Qed.

Lemma formatCardNumber_length_witness :
  no_whitespace "4111111111111111" = true
  /\ String.length (formatCardNumber "4111111111111111") = 19%nat.
Proof.
  split; [reflexivity|].
  apply (formatCardNumber_length "4111111111111111"). reflexivity.
Defined.

Lemma replace_groups_space (v : string) :
  exists w, replace_groups (String " " v) = String " " w
            /\ strip_whitespace w = strip_whitespace v.
Proof.
  pose proof (strip_replace_groups _ (String " " v) (le_n _)) as Hs.
  destruct (replace_groups (String " " v)) as [|c w] eqn:E.
  - exfalso. revert E. cbn [replace_groups].
    destruct v as [|c2 [|c3 [|c4 rest]]]; try discriminate.
    destruct (dot " " && dot c2 && dot c3 && dot c4); discriminate.
  - assert (c = " "%char) as ->.
    { revert E. cbn [replace_groups].
      destruct v as [|c2 [|c3 [|c4 rest]]];
        try (intros E; now inversion E).
      destruct (dot " " && dot c2 && dot c3 && dot c4);
        intros E; now inversion E. }
    exists w. split; [reflexivity|].
    rewrite !strip_cons in Hs. exact Hs.
Qed.

Lemma trimEnd_empty_strip (w : string) :
  trimEnd w = EmptyString -> strip_whitespace w = EmptyString.
Proof. intros H. now rewrite <- strip_trimEnd, H. Qed.

(** [formatCardNumber] is not idempotent: on a string without whitespace
    of five characters or more, formatting the formatted string again
    puts a second space after the first group of four, where the
    formatted string has the fifth character. *)
Theorem formatCardNumber_twice (s : string) :
  no_whitespace s = true ->
  (5 <= String.length s)%nat ->
  (exists t, formatCardNumber (formatCardNumber s) = take 4 s ++ "  " ++ t)
  /\ (exists c t, formatCardNumber s = take 4 s ++ " " ++ String c t
                  /\ is_whitespace c = false)
  /\ formatCardNumber (formatCardNumber s) <> formatCardNumber s.
Proof.
  intros Hs Hlen.
  destruct s as [|c1 [|c2 [|c3 [|c4 [|c5 rest]]]]]; cbn in Hlen; try lia.
  rewrite (formatCardNumber_joined _ Hs).
  apply no_whitespace_cons in Hs as [W1 Hs].
  apply no_whitespace_cons in Hs as [W2 Hs].
  apply no_whitespace_cons in Hs as [W3 Hs].
  apply no_whitespace_cons in Hs as [W4 Hs].
  destruct (format_invariant_holds _ Hs) as (_ & Hfirst & _ & _).
  rewrite joined_groups_step.
  destruct (joined_groups (String c5 rest)) as [|x u] eqn:E;
    [discriminate Hfirst|].
  cbn [take append].
  unfold formatCardNumber, trim.
  rewrite replace_groups_step by now apply not_whitespace_dot.
  destruct (replace_groups_space (String x u)) as (w & -> & Hw).
  assert (Hne : trimEnd w <> EmptyString).
  { intros H. apply trimEnd_empty_strip in H. rewrite Hw in H.
    rewrite strip_cons, Hfirst in H. discriminate H. }
  rewrite !trimEnd_cons by assumption.
  rewrite trimEnd_space, (trimEnd_space w).
  destruct (trimEnd w) as [|y z] eqn:Ew; [now contradiction Hne|].
  cbn [trimStart]. rewrite W1.
  repeat split.
  - now exists (String y z).
  - now exists x, u.
  - intros H. inversion H; subst. discriminate Hfirst.
Qed.

Lemma formatCardNumber_twice_witness :
  formatCardNumber (formatCardNumber "12345678") = "1234  567 8"
  /\ formatCardNumber (formatCardNumber "12345678")
     <> formatCardNumber "12345678".
Proof.
  split; [reflexivity|].
  apply (formatCardNumber_twice "12345678"); [reflexivity | cbn; lia].
Defined.
